(** * The Account Quota Controller of kiosk

    A shallow embedding of [pkg/manager/quota/controller/controller.go]:
    the reconciler [syncResourceQuota], the event router [addQuota], the
    replenishment path [replenishQuota], one tick of the discovery loop
    [Sync], the supervisor [Run] and the probe [GetQuotableResources],
    followed by the properties the specification states about them.

    Calls on collaborators (work queues, the typed client, the quota
    monitor, the worker lock) are recorded, in program order, as a list of
    [Effect]s; what the collaborators answer is read from an environment
    record. *)

From Stdlib Require Import ZArith String List Bool Lia.
From stdpp Require Import gmap strings list fin_maps sorting.

Local Open Scope Z_scope.
Local Open Scope string_scope.
Local Open Scope list_scope.

(* ===================================================================== *)
(** * Part I. Definitions                                                 *)
(* ===================================================================== *)

(** ** Resource lists ([k8s.io/api/core/v1], [k8s.io/kubernetes/pkg/quota/v1])

    A [resource.Quantity] is represented by its numeric value, an integer
    count of the finest unit; [Cmp] is the comparison of values, which is
    what both [quota.Equals] and the semantic deep-equality use.
    A [v1.ResourceList] is a Go map from resource name to quantity: either
    [nil] ([None]) or an allocated map ([Some m]). *)

Abbreviation ResourceName := string (only parsing).
Abbreviation Quantity := Z (only parsing).
Abbreviation ResourceList := (option (gmap string Z)) (only parsing).

(** What indexing, [len] and [range] see of a Go map: a nil map reads as the
    empty map. *)
Definition entries {V} (r : option (gmap string V)) : gmap string V :=
  default ∅ r.

Definition isnil {A} (r : option A) : bool :=
  match r with None => true | Some _ => false end.

Definition len (r : ResourceList) : nat := size (entries r).

Definition Cmp (a b : Quantity) : comparison := (a ?= b)%Z.

Definition cmp_is_zero (c : comparison) : bool :=
  match c with Eq => true | _ => false end.

Module quota.

(** Modelled from the spec: [quota.Add] belongs to the quota library, which
    is not under src/. Section 4.5: "addition is defined per resource-name";
    a name present in one list only keeps its quantity, and the result is
    always a fresh map. *)
Definition Add (a b : ResourceList) : ResourceList :=
  Some (union_with (λ x y, Some (x + y)%Z) (entries a) (entries b)).

(** Modelled from the spec: [quota.Mask] belongs to the quota library.
    Section 4.5: "Mask used_n down to hardResources"; the result holds the
    values with the specified names only, by exact match, in a fresh map. *)
Definition Mask (resources : ResourceList) (names : list ResourceName)
  : ResourceList :=
  Some (filter (λ kv, kv.1 ∈ names) (entries resources)).

(** Modelled from the spec: [quota.ResourceNames] belongs to the quota
    library. Section 4.5: "hardResources := keys(hardLimits)". *)
Definition ResourceNames (resources : ResourceList) : list ResourceName :=
  (map_to_list (entries resources)).*1.

(** Modelled from the spec: [quota.Equals] belongs to the quota library.
    Section 4.5: "Equality uses the canonical-form comparator supplied by the
    quota library (semantic equality, not string equality)"; the lists have
    the same length, and every key of [a] is found in [b] with a value that
    compares equal. *)
Definition Equals (a b : ResourceList) : bool :=
  if negb (Nat.eqb (len a) (len b)) then false
  else forallb
         (λ kv, match entries b !! kv.1 with
                | None => false
                | Some value2 => cmp_is_zero (Cmp kv.2 value2)
                end)
         (map_to_list (entries a)).

End quota.

Module apiequality.

(** Modelled from the spec: [apiequality.Semantic.DeepEqual] belongs to the
    API machinery, which is not under src/. Section 4.5 compares
    [spec.hard] with [status.total.hard] semantically; at type
    [v1.ResourceList] this is the map case of the semantic deep-equality (an
    empty map is the same as a nil map), with quantities compared by
    [Cmp]. *)
Definition Semantic_DeepEqual (v1 v2 : ResourceList) : bool :=
  let empty1 := isnil v1 || Nat.eqb (len v1) 0 in
  let empty2 := isnil v2 || Nat.eqb (len v2) 0 in
  if negb (Bool.eqb empty1 empty2) then false
  else if empty1 then true
  else if negb (Nat.eqb (len v1) (len v2)) then false
  else forallb
         (λ kv, match entries v2 !! kv.1 with
                | None => false
                | Some y => cmp_is_zero (Cmp kv.2 y)
                end)
         (map_to_list (entries v1)).

End apiequality.

(** ** Errors

    A Go [error] value is [option error]: [None] is [nil]. *)
#[warnings="-register-all"]
Inductive error : Type :=
| ErrNotFound (msg : string)              (* errors.IsNotFound holds *)
| ErrGroupDiscoveryFailed (msg : string)  (* discovery.IsGroupDiscoveryFailedError holds *)
| ErrOther (msg : string)
| aggregate (errs : list error).          (* utilerrors.aggregate *)

Definition IsNotFound (err : option error) : bool :=
  match err with Some (ErrNotFound _) => true | _ => false end.

Definition IsGroupDiscoveryFailedError (err : option error) : bool :=
  match err with Some (ErrGroupDiscoveryFailed _) => true | _ => false end.

(** [utilerrors.NewAggregate]: nil for an empty list. The lists built by
    the controller hold non-nil errors only. *)
Definition NewAggregate (errlist : list error) : option error :=
  match errlist with
  | [] => None
  | _ => Some (aggregate errlist)
  end.

(** ** API objects *)

Record ScopedResourceSelectorRequirement := {
  ScopeName : string;
  Operator : string;
  Values : list string;
}.

Record ResourceQuotaSpec := {
  Hard : ResourceList;
  Scopes : list string;
  ScopeSelector : option (list ScopedResourceSelectorRequirement);
}.

Record ResourceQuotaStatus := {
  StatusHard : ResourceList;
  Used : ResourceList;
}.

Record AccountQuotaSpec := {
  Account : string;
  Quota : ResourceQuotaSpec;
}.

Record AccountQuotaStatusByNamespace := {
  Namespace : string;
  NamespaceStatus : ResourceQuotaStatus;
}.

Record AccountQuotaStatus := {
  Total : ResourceQuotaStatus;
  Namespaces : list AccountQuotaStatusByNamespace;
}.

Record AccountQuota := {
  ObjectNamespace : string;   (* metadata.namespace, empty: cluster scoped *)
  Name : string;              (* metadata.name *)
  Spec : AccountQuotaSpec;
  Status : AccountQuotaStatus;
}.

Record v1Namespace := {
  NamespaceName : string;
}.

Record GroupResource := {
  Group : string;
  Resource : string;
}.

Record GroupVersionResource := {
  GVRGroup : string;
  GVRVersion : string;
  GVRResource : string;
}.

#[global] Instance ScopedResourceSelectorRequirement_eq_dec :
  EqDecision ScopedResourceSelectorRequirement.
Proof. solve_decision. Defined.
#[global] Instance ResourceQuotaSpec_eq_dec : EqDecision ResourceQuotaSpec.
Proof. solve_decision. Defined.
#[global] Instance ResourceQuotaStatus_eq_dec : EqDecision ResourceQuotaStatus.
Proof. solve_decision. Defined.
#[global] Instance AccountQuotaSpec_eq_dec : EqDecision AccountQuotaSpec.
Proof. solve_decision. Defined.
#[global] Instance AccountQuotaStatusByNamespace_eq_dec :
  EqDecision AccountQuotaStatusByNamespace.
Proof. solve_decision. Defined.
#[global] Instance AccountQuotaStatus_eq_dec : EqDecision AccountQuotaStatus.
Proof. solve_decision. Defined.
#[global] Instance AccountQuota_eq_dec : EqDecision AccountQuota.
Proof. solve_decision. Defined.
#[global] Instance v1Namespace_eq_dec : EqDecision v1Namespace.
Proof. solve_decision. Defined.
#[global] Instance GroupResource_eq_dec : EqDecision GroupResource.
Proof. solve_decision. Defined.
#[global] Instance GroupVersionResource_eq_dec : EqDecision GroupVersionResource.
Proof. solve_decision. Defined.

#[global] Instance GroupVersionResource_countable : Countable GroupVersionResource.
Proof.
  refine (inj_countable'
            (λ r, (GVRGroup r, GVRVersion r, GVRResource r))
            (λ t, {| GVRGroup := t.1.1; GVRVersion := t.1.2; GVRResource := t.2 |})
            _).
  by intros [].
Defined.

(** A Go [map[schema.GroupVersionResource]struct{}]: nil or allocated. *)
Abbreviation GVRMap := (option (gset GroupVersionResource)) (only parsing).

Definition gvr_entries (m : GVRMap) : gset GroupVersionResource :=
  default ∅ m.

(** ** Collaborators *)

Inductive result (A : Type) : Type :=
| Ok (a : A)
| Err (e : error).
Arguments Ok {A} a.
Arguments Err {A} e.

(** Modelled from the spec: the [quota.Evaluator] interface comes from the
    quota library, which is not under src/. Section 4.1:
    "[Evaluator.MatchingResources(names)] returns the intersection between a
    set of declared resource-names and what this evaluator can score";
    [Scores] is the set of names the evaluator can score. *)
Record Evaluator := {
  EvaluatorGroupResource : GroupResource;
  Scores : ResourceName → bool;
}.

Definition MatchingResources (evaluator : Evaluator)
    (input : list ResourceName) : list ResourceName :=
  List.filter (Scores evaluator) input.

(** [quota.Registry]: the evaluators, keyed by group resource. *)
Definition Registry_List (registry : list Evaluator) : list Evaluator :=
  registry.

Definition Registry_Get (registry : list Evaluator) (groupResource : GroupResource)
    : option Evaluator :=
  List.find (λ e, bool_decide (EvaluatorGroupResource e = groupResource)) registry.

(** What the cluster answers to the controller's calls during one
    reconcile or one event:
    - [CalculateUsage namespace scopes hardLimits scopeSelector] is the
      result of [quota.CalculateUsage] with the controller's registry: the
      usage found and the aggregate of the evaluators' errors;
    - [ListNamespaces account] is [client.List] of the namespaces indexed
      by account, [ListAccountQuotas] that of all account quotas;
    - [Status_Update usage] is the error of [client.Status().Update]. *)
Record Cluster := {
  registry : list Evaluator;
  CalculateUsage :
    string → list string → ResourceList →
    option (list ScopedResourceSelectorRequirement) →
    ResourceList * option error;
  ListNamespaces : string → result (list v1Namespace);
  ListAccountQuotas : result (list AccountQuota);
  Status_Update : AccountQuota → option error;
}.

(** The quota monitor as the sync loop sees it: the error of
    [SyncMonitors] and whether [WaitForNamedCacheSync] saw [IsSynced]
    before the stop-or-timeout channel closed. *)
Record QuotaMonitor := {
  SyncMonitors : GVRMap → option error;
  WaitForNamedCacheSync : bool;
}.

(** ** Effects *)

(** The two work queues of the controller: [rq.queue] (primary) and
    [rq.missingUsageQueue] (priority). *)
Inductive QueueName : Type := queue | missingUsageQueue.

#[global] Instance QueueName_eq_dec : EqDecision QueueName.
Proof. solve_decision. Defined.

Inductive Goroutine : Type :=
| quotaMonitor_Run
| worker (q : QueueName)
| enqueueAll_ticker.

Inductive Effect : Type :=
| QueueAdd (q : QueueName) (key : string)
| QueueShutDown (q : QueueName)
| ClientStatusUpdate (usage : AccountQuota)
| HandleError (err : error)
| HandleCrash
| Log (msg : string)
| Go (g : Goroutine)
| ReceiveStop                         (* <-stopCh *)
| WorkerLock
| WorkerUnlock
| CallSyncMonitors (resources : GVRMap)
| CallWaitForNamedCacheSync.

(** ** Keys *)

(** [controller.KeyFunc], the deletion-handling meta-namespace key function,
    on an account quota: "namespace/name", or the name alone for an object
    without namespace. It fails only on objects without metadata. *)
Definition KeyFunc (obj : AccountQuota) : result string :=
  if Nat.ltb 0 (String.length (ObjectNamespace obj))
  then Ok (ObjectNamespace obj ++ "/" ++ Name obj)%string
  else Ok (Name obj).

(** ** Event router *)

Definition enqueueAccountQuota (obj : AccountQuota) : list Effect :=
  match KeyFunc obj with
  | Err _ => []
  | Ok key => [QueueAdd queue key]
  end.

Definition addQuota (registry : list Evaluator) (accountQuota : AccountQuota)
    : list Effect :=
  match KeyFunc accountQuota with
  | Err _ => []
  | Ok key =>
    (* if we declared an intent that is not yet captured in status *)
    if negb (apiequality.Semantic_DeepEqual
               (Hard (Quota (Spec accountQuota)))
               (StatusHard (Total (Status accountQuota))))
    then [QueueAdd missingUsageQueue key]
    (* if we declared a constraint that has no usage *)
    else if existsb
              (λ constraint,
                 match entries (Used (Total (Status accountQuota))) !! constraint with
                 | Some _ => false
                 | None =>
                   existsb
                     (λ evaluator,
                        Nat.ltb 0 (length (MatchingResources evaluator [constraint])))
                     (Registry_List registry)
                 end)
              (map_to_list (entries (StatusHard (Total (Status accountQuota))))).*1
    then [QueueAdd missingUsageQueue key]
    (* no special priority, go in normal recalc queue *)
    else [QueueAdd queue key]
  end.

(** ** Reconciler *)

(** The inner loop over the previous status: the used list that namespace
    [n] starts from, taken from the last entry of the previous status with
    its name and a used list that is not nil. *)
Definition previousUsedList (accountQuota : AccountQuota) (n : v1Namespace)
    : ResourceList :=
  fold_left
    (λ (usedList : ResourceList) nsStatus,
       if String.eqb (Namespace nsStatus) (NamespaceName n)
          && negb (isnil (Used (NamespaceStatus nsStatus)))
       then quota.Add (Some ∅) (Used (NamespaceStatus nsStatus))
       else usedList)
    (Namespaces (Status accountQuota)) (Some ∅).

(** The body of the loop over the namespaces: the used list of namespace
    [n] and the error of the usage calculation. *)
Definition namespaceUsed (c : Cluster) (accountQuota : AccountQuota)
    (hardLimits : ResourceList) (hardResources : list ResourceName)
    (n : v1Namespace) : ResourceList * option error :=
  let '(newUsage, err) :=
    CalculateUsage c (NamespaceName n) (Scopes (Quota (Spec accountQuota)))
      hardLimits (ScopeSelector (Quota (Spec accountQuota))) in
  let usedList := previousUsedList accountQuota n in
  (* usedList[key] = value, for every key and value of newUsage *)
  let usedList : ResourceList := Some (entries newUsage ∪ entries usedList) in
  let usedList := quota.Mask usedList hardResources in
  (usedList, err).

Record SyncLoop := {
  used : list AccountQuotaStatusByNamespace;
  totalUsed : ResourceList;
  errors : list error;
}.

Definition syncLoop_step (c : Cluster) (accountQuota : AccountQuota)
    (hardLimits : ResourceList) (hardResources : list ResourceName)
    (st : SyncLoop) (n : v1Namespace) : SyncLoop :=
  let '(usedList, err) := namespaceUsed c accountQuota hardLimits hardResources n in
  {| errors := match err with Some e => errors st ++ [e] | None => errors st end;
     used := used st ++
       [{| Namespace := NamespaceName n;
           NamespaceStatus := {| StatusHard := None; Used := usedList |} |}];
     totalUsed := quota.Add (totalUsed st) usedList |}.

Definition syncLoop (c : Cluster) (accountQuota : AccountQuota)
    (items : list v1Namespace) : SyncLoop :=
  let hardLimits := quota.Add (Some ∅) (Hard (Quota (Spec accountQuota))) in
  let hardResources := quota.ResourceNames hardLimits in
  fold_left (syncLoop_step c accountQuota hardLimits hardResources) items
    {| used := []; totalUsed := Some ∅; errors := [] |}.

(** The entry that the loop records for namespace [n]. *)
Definition entryOf (c : Cluster) (accountQuota : AccountQuota)
    (n : v1Namespace) : AccountQuotaStatusByNamespace :=
  let hardLimits := quota.Add (Some ∅) (Hard (Quota (Spec accountQuota))) in
  let hardResources := quota.ResourceNames hardLimits in
  {| Namespace := NamespaceName n;
     NamespaceStatus :=
       {| StatusHard := None;
          Used := (namespaceUsed c accountQuota hardLimits hardResources n).1 |} |}.

(** The object handed to the status update: a copy of the quota with a
    new status. *)
Definition usageOf (c : Cluster) (accountQuota : AccountQuota)
    (items : list v1Namespace) : AccountQuota :=
  let hardLimits := quota.Add (Some ∅) (Hard (Quota (Spec accountQuota))) in
  let st := syncLoop c accountQuota items in
  {| ObjectNamespace := ObjectNamespace accountQuota;
     Name := Name accountQuota;
     Spec := Spec accountQuota;
     Status := {| Total := {| StatusHard := hardLimits; Used := totalUsed st |};
                  Namespaces := used st |} |}.

(** The final value of the variable [dirty]. *)
Definition dirtyOf (c : Cluster) (accountQuota : AccountQuota)
    (items : list v1Namespace) : bool :=
  let statusLimitsDirty :=
    negb (apiequality.Semantic_DeepEqual
            (Hard (Quota (Spec accountQuota)))
            (StatusHard (Total (Status accountQuota)))) in
  let dirty :=
    statusLimitsDirty
    || isnil (StatusHard (Total (Status accountQuota)))
    || isnil (Used (Total (Status accountQuota))) in
  dirty
  || negb (quota.Equals (Used (Total (Status (usageOf c accountQuota items))))
                        (Used (Total (Status accountQuota)))).

(** [syncResourceQuota]: the error returned and the calls made. *)
Definition syncResourceQuota (c : Cluster) (accountQuota : AccountQuota)
    : option error * list Effect :=
  match ListNamespaces c (Account (Spec accountQuota)) with
  | Err err => (Some err, [])
  | Ok items =>
    let st := syncLoop c accountQuota items in
    let usage := usageOf c accountQuota items in
    if dirtyOf c accountQuota items then
      match Status_Update c usage with
      | Some err => (NewAggregate (errors st ++ [err]), [ClientStatusUpdate usage])
      | None => (NewAggregate (errors st), [ClientStatusUpdate usage])
      end
    else (NewAggregate (errors st), [])
  end.

(** ** Replenishment *)

Definition replenishQuota (c : Cluster) (groupResource : GroupResource)
    (namespace : string) : list Effect :=
  match Registry_Get (registry c) groupResource with
  | None => []
  | Some evaluator =>
    match ListAccountQuotas c with
    | Err err =>
      if IsNotFound (Some err)
      then [HandleError (ErrOther "quota controller could not find ResourceQuota associated with namespace")]
      else [HandleError (ErrOther "error checking to see if namespace has any ResourceQuota associated with it")]
    | Ok items =>
      if Nat.eqb (length items) 0 then []
      else
        flat_map
          (λ accountQuota,
             let accountQuotaResources :=
               quota.ResourceNames (StatusHard (Total (Status accountQuota))) in
             if Nat.ltb 0 (length (MatchingResources evaluator accountQuotaResources))
             then enqueueAccountQuota accountQuota
             else [])
          items
    end
  end.

(** ** Discovery *)

Definition pods_v1 : GroupVersionResource :=
  {| GVRGroup := ""; GVRVersion := "v1"; GVRResource := "pods" |}.

(** [GetQuotableResources]: "We only do pods for now". The body that asks
    discovery and filters by verbs is commented out in the source. *)
Definition GetQuotableResources : GVRMap * option error :=
  (Some {[ pods_v1 ]}, None).

(** [reflect.DeepEqual] on two maps of this type: both nil or both
    allocated, with the same keys. *)
Definition reflect_DeepEqual (a b : GVRMap) : bool :=
  match a, b with
  | None, None => true
  | Some x, Some y => bool_decide (x = y)
  | _, _ => false
  end.

Definition resyncMonitors (quotaMonitor : option QuotaMonitor)
    (resources : GVRMap) : option error * list Effect :=
  match quotaMonitor with
  | None => (None, [])
  | Some qm => (SyncMonitors qm resources, [CallSyncMonitors resources])
  end.

(** The part of a tick that follows discovery: compare with the remembered
    set and, on a change, resync the monitors under the worker lock. *)
Definition Sync_apply (quotaMonitor : option QuotaMonitor)
    (oldResources newResources : GVRMap) : GVRMap * list Effect :=
  (* decide whether discovery has reported a change *)
  if reflect_DeepEqual oldResources newResources then (oldResources, [])
  else
    let '(err, calls) := resyncMonitors quotaMonitor newResources in
    match err with
    | Some _ =>
      (oldResources,
       [WorkerLock] ++ calls
         ++ [HandleError (ErrOther "failed to sync resource monitors");
             WorkerUnlock])
    | None =>
      match quotaMonitor with
      | Some qm =>
        if negb (WaitForNamedCacheSync qm)
        then (oldResources,
              [WorkerLock] ++ calls
                ++ [CallWaitForNamedCacheSync;
                    HandleError (ErrOther "timed out waiting for quota monitor sync");
                    WorkerUnlock])
        else (* success, remember newly synced resources *)
          (newResources,
           [WorkerLock] ++ calls ++ [CallWaitForNamedCacheSync; WorkerUnlock])
      | None => (newResources, [WorkerLock] ++ calls ++ [WorkerUnlock])
      end
    end.

(** One tick of the function that [Sync] repeats until stop: [discovered]
    is what the call of the probe returned, [oldResources] the remembered
    set. Returns the remembered set after the tick and the calls made. *)
Definition Sync_tick (discovered : GVRMap * option error)
    (quotaMonitor : option QuotaMonitor) (oldResources : GVRMap)
    : GVRMap * list Effect :=
  let '(newResources, err) := discovered in
  match err with
  | None => Sync_apply quotaMonitor oldResources newResources
  | Some e =>
    if IsGroupDiscoveryFailedError err
       && Nat.ltb 0 (size (gvr_entries newResources))
    then
      (* in partial discovery cases, don't remove any existing informers,
         just add new ones *)
      let newResources : GVRMap :=
        Some (gvr_entries oldResources ∪ gvr_entries newResources) in
      let '(oldResources', calls) :=
        Sync_apply quotaMonitor oldResources newResources in
      (oldResources', HandleError e :: calls)
    else
      (* short circuit in non-discovery error cases or if discovery
         returned zero resources *)
      (oldResources, [HandleError e])
  end.

(** [Sync]: the ticks in sequence, starting from an allocated empty map;
    every tick calls [GetQuotableResources]. [ticks] gives the state of
    [rq.quotaMonitor] at each tick. *)
Definition Sync (ticks : list (option QuotaMonitor)) : GVRMap * list Effect :=
  fold_left
    (λ '(oldResources, calls) quotaMonitor,
       let '(oldResources', calls') :=
         Sync_tick GetQuotableResources quotaMonitor oldResources in
       (oldResources', calls ++ calls'))
    ticks (Some ∅, []).

(** ** Supervisor *)

(** [Run]: the calls of the function's own goroutine, from entry to return
    once the stop channel is closed. Deferred calls run last, in reverse
    order of their [defer] statements. *)
Definition Run (quotaMonitor_present : bool) (workers : Z) : list Effect :=
  let deferred :=
    [HandleCrash;
     QueueShutDown queue;
     Log "Shutting down resource quota controller"] in
  [Log "Starting resource quota controller"]
  ++ (if quotaMonitor_present then [Go quotaMonitor_Run] else [])
  ++ flat_map (λ _, [Go (worker queue); Go (worker missingUsageQueue)])
       (seq 0 (Z.to_nat workers))
  ++ [Go enqueueAll_ticker]
  ++ [ReceiveStop]
  ++ rev deferred.

(** ** Notions of the specification

    The definitions below follow the words of the specification; the
    properties compare them with what the code computes. *)

(** A sum of quantities that is absent when there is nothing to add. *)
Definition sum_present (qs : list Quantity) : option Quantity :=
  match qs with
  | [] => None
  | _ => Some (foldr Z.add 0%Z qs)
  end.

(** "The sum over [status.namespaces[*].used] under addition defined per
    resource-name": for one resource name, the sum of the quantities of the
    entries that report it. *)
Definition sum_of_used (namespaces : list AccountQuotaStatusByNamespace)
    (name : ResourceName) : option Quantity :=
  sum_present (omap (λ e, entries (Used (NamespaceStatus e)) !! name) namespaces).

(** The key set of a resource list. *)
Definition keys (r : ResourceList) : gset string := dom (entries r).

(** The per-namespace evaluator errors of one reconcile, in the order of the
    namespace list. *)
Definition evaluatorErrors (c : Cluster) (accountQuota : AccountQuota)
    (items : list v1Namespace) : list error :=
  omap (λ n, (CalculateUsage c (NamespaceName n)
                (Scopes (Quota (Spec accountQuota)))
                (quota.Add (Some ∅) (Hard (Quota (Spec accountQuota))))
                (ScopeSelector (Quota (Spec accountQuota)))).2)
       items.

(** "dirty := (spec.hard != previous status.total.hard) OR previous status
    was absent OR (new total.used != previous total.used)". Resource lists
    are compared semantically: as maps, a nil map being an empty map; the
    previous status is absent when its total hard or its total used list is
    nil. *)
Definition hard_differs (accountQuota : AccountQuota) : Prop :=
  entries (Hard (Quota (Spec accountQuota)))
  ≠ entries (StatusHard (Total (Status accountQuota))).

Definition status_absent (accountQuota : AccountQuota) : Prop :=
  StatusHard (Total (Status accountQuota)) = None
  ∨ Used (Total (Status accountQuota)) = None.

Definition spec_dirty (accountQuota : AccountQuota) (newTotalUsed : ResourceList)
    : Prop :=
  hard_differs accountQuota
  ∨ status_absent accountQuota
  ∨ entries newTotalUsed ≠ entries (Used (Total (Status accountQuota))).

(** A status write is a call of the status update. *)
Definition writes (calls : list Effect) : Prop :=
  ∃ usage, ClientStatusUpdate usage ∈ calls.

(** "Some declared hard resource has no entry in status.total.used and some
    registered evaluator's MatchingResources claims that resource." *)
Definition usage_missing (registry : list Evaluator) (accountQuota : AccountQuota)
    : Prop :=
  ∃ name,
    (name ∈ keys (Hard (Quota (Spec accountQuota))))
    ∧ (name ∉ keys (Used (Total (Status accountQuota))))
    ∧ (∃ evaluator, (evaluator ∈ registry)
                    ∧ (MatchingResources evaluator [name] ≠ [])).

(** What discovery reports about one served resource. *)
Record APIResource := {
  APIGroupVersionResource : GroupVersionResource;
  Verbs : list string;
}.

(** "The group/version/resource triples supporting verbs create, list,
    watch, delete", among the resources currently served. *)
Definition quotable_served (served : list APIResource) : gset GroupVersionResource :=
  list_to_set
    (APIGroupVersionResource <$>
       List.filter
         (λ r, forallb (λ verb, bool_decide (verb ∈ Verbs r))
                 ["create"; "list"; "watch"; "delete"])
         served).

(** ** Sample objects

    A quota on pods for account "a" that has never been reconciled, and a
    cluster with two namespaces of that account; the evaluators also report
    services, and fail on the second namespace. *)

Definition pods_evaluator : Evaluator :=
  {| EvaluatorGroupResource := {| Group := ""; Resource := "pods" |};
     Scores := λ name, String.eqb name "pods" |}.

Definition sample_quota : AccountQuota :=
  {| ObjectNamespace := "";
     Name := "q";
     Spec := {| Account := "a";
                Quota := {| Hard := Some {[ "pods" := 10%Z ]};
                            Scopes := [];
                            ScopeSelector := None |} |};
     Status := {| Total := {| StatusHard := None; Used := None |};
                  Namespaces := [] |} |}.

Definition sample_namespaces : list v1Namespace :=
  [ {| NamespaceName := "n1" |}; {| NamespaceName := "n2" |} ].

Definition sample_cluster : Cluster :=
  {| registry := [pods_evaluator];
     CalculateUsage := λ namespace _ _ _,
       if String.eqb namespace "n1"
       then (Some {[ "pods" := 1%Z; "services" := 2%Z ]}, None)
       else (Some {[ "pods" := 3%Z ]}, Some (aggregate [ErrOther "usage stats"]));
     ListNamespaces := λ _, Ok sample_namespaces;
     ListAccountQuotas := Ok [sample_quota];
     Status_Update := λ _, None |}.

(** The same cluster when the listing of the namespaces fails. *)
Definition unreachable_cluster : Cluster :=
  {| registry := registry sample_cluster;
     CalculateUsage := CalculateUsage sample_cluster;
     ListNamespaces := λ _, Err (ErrOther "timeout");
     ListAccountQuotas := Err (ErrOther "timeout");
     Status_Update := Status_Update sample_cluster |}.

(** The object that the first reconcile of the sample quota writes. *)
Definition sample_usage : AccountQuota :=
  usageOf sample_cluster sample_quota sample_namespaces.

(** A quota whose hard limits are captured in its status but whose usage
    of pods has not been calculated yet. *)
Definition sample_quota_without_usage : AccountQuota :=
  {| ObjectNamespace := "";
     Name := "q";
     Spec := Spec sample_quota;
     Status := {| Total := {| StatusHard := Some {[ "pods" := 10%Z ]};
                              Used := Some ∅ |};
                  Namespaces := [] |} |}.

(** A second quota of the account, already reconciled. *)
Definition reconciled_quota : AccountQuota :=
  {| ObjectNamespace := "";
     Name := "q2";
     Spec := Spec sample_quota;
     Status := Status sample_usage |}.

(** The sample cluster with both quotas. *)
Definition cluster_with_two_quotas : Cluster :=
  {| registry := registry sample_cluster;
     CalculateUsage := CalculateUsage sample_cluster;
     ListNamespaces := ListNamespaces sample_cluster;
     ListAccountQuotas := Ok [sample_quota; reconciled_quota];
     Status_Update := Status_Update sample_cluster |}.

(** Group/version/resource triples, and a discovery answer in which services
    are served with every verb and no other resource is. *)
Definition services_v1 : GroupVersionResource :=
  {| GVRGroup := ""; GVRVersion := "v1"; GVRResource := "services" |}.

Definition served_services_only : list APIResource :=
  [ {| APIGroupVersionResource := services_v1;
       Verbs := ["create"; "delete"; "get"; "list"; "patch"; "update"; "watch"] |} ].

(** A quota monitor whose resync succeeds and whose caches fill in time. *)
Definition healthy_monitor : QuotaMonitor :=
  {| SyncMonitors := λ _, None; WaitForNamedCacheSync := true |}.

(** ** The rest of the controller

    The functions of the controller that the sections above leave out: the
    handlers of namespace and account quota events, the full resync, the
    reconcile by key, the workers, the construction of the controller and
    the summary of a discovery change. *)

(** A namespace as the informer delivers it. The account of a namespace is
    given by [util.GetAccountFromNamespace], which is not under src/: the
    handlers below take it as a parameter (section 3: the function
    "account-of-namespace" is total, the empty string meaning no account). *)
Record NamespaceObject := {
  NamespaceObjectName : string;
  Labels : gmap string string;
  Annotations : gmap string string;
}.

(** [enqueueNamespace]: [ListQuotasByAccount account] is [client.List] of
    the account quotas indexed by account. *)
Definition enqueueNamespace
    (GetAccountFromNamespace : NamespaceObject → string)
    (ListQuotasByAccount : string → result (list AccountQuota))
    (namespace : NamespaceObject) : list Effect :=
  let account := GetAccountFromNamespace namespace in
  if String.eqb account "" then []
  else
    match ListQuotasByAccount account with
    | Err err => [HandleError (ErrOther "unable to list account quotas")]
    | Ok items => (λ quota, QueueAdd queue (Name quota)) <$> items
    end.


(** The update handler of the account quota informer: only changes of
    [spec.quota.hard] reach [addQuota]. *)
Definition accountQuotaUpdateFunc (registry : list Evaluator)
    (oldAccountQuota curAccountQuota : AccountQuota) : list Effect :=
  if quota.Equals (Hard (Quota (Spec oldAccountQuota)))
                  (Hard (Quota (Spec curAccountQuota)))
  then []
  else addQuota registry curAccountQuota.

(** [enqueueAll], called at every full resync period. *)
Definition enqueueAll (c : Cluster) : list Effect :=
  match ListAccountQuotas c with
  | Err err =>
    [HandleError (ErrOther "unable to enqueue all - error listing resource quotas")]
  | Ok items =>
    flat_map
      (λ item,
         match KeyFunc item with
         | Err _ => [HandleError (ErrOther "Couldn't get key for object")]
         | Ok key => [QueueAdd queue key]
         end)
      items
  end.

(** [syncResourceQuotaFromKey]: [Get key] is [client.Get] of the account
    quota named [key]. *)
Definition syncResourceQuotaFromKey (Get : string → result AccountQuota)
    (c : Cluster) (key : string) : option error * list Effect :=
  match Get key with
  | Err err =>
    if IsNotFound (Some err) then (None, [])
    else (Some err, [])
  | Ok accountQuota => syncResourceQuota c accountQuota
  end.

(** ** Workers *)

(** The calls of a worker: those of the handler it runs, the calls on its
    queue and the read side of the worker lock. *)
Inductive WorkerEffect : Type :=
| Handler (e : Effect)
| QueueGet (q : QueueName)
| QueueDone (q : QueueName) (key : string)
| QueueForget (q : QueueName) (key : string)
| QueueAddRateLimited (q : QueueName) (key : string)
| WorkerRLock
| WorkerRUnlock.

(** [workFunc] of [worker]: [got] is what [queue.Get] returned, the item and
    the quit flag; [syncHandler] is [rq.syncHandler]. Returns the quit flag
    and the calls made; the deferred calls run last, in reverse order. *)
Definition workFunc (q : QueueName) (got : string * bool)
    (syncHandler : string → option error * list Effect)
    : bool * list WorkerEffect :=
  let '(key, quit) := got in
  if quit then (true, [QueueGet q])
  else
    let deferred := [QueueDone q key; WorkerRUnlock] in
    let '(err, calls) := syncHandler key in
    match err with
    | None =>
      (false,
       [QueueGet q; WorkerRLock] ++ (Handler <$> calls)
         ++ [QueueForget q key] ++ rev deferred)
    | Some e =>
      (false,
       [QueueGet q; WorkerRLock] ++ (Handler <$> calls)
         ++ [Handler (HandleError e); QueueAddRateLimited q key] ++ rev deferred)
    end.

(** The loop of [worker]: [steps] gives, for each call of [workFunc] in
    turn, what [queue.Get] returns and how the handler behaves at that time.
    Returns the calls made and whether the loop has returned; it has not when
    the steps are used up before a quit. *)
Fixpoint workerLoop (q : QueueName)
    (steps : list ((string * bool) * (string → option error * list Effect)))
    : list WorkerEffect * bool :=
  match steps with
  | [] => ([], false)
  | (got, syncHandler) :: steps' =>
    let '(quit, calls) := workFunc q got syncHandler in
    if quit then (calls, true)
    else
      let '(calls', returned) := workerLoop q steps' in
      (calls ++ calls', returned)
  end.

(** ** Construction *)

Inductive InformerKind : Type := NamespaceInformer | AccountQuotaInformer.

Inductive SetupEffect : Type :=
| Setup (e : Effect)
| GetInformer (kind : InformerKind)
| AddEventHandlerWithResyncPeriod (kind : InformerKind).

(** [NewAccountQuotaController]: the error returned (nil when the
    controller is built) and the calls made. [namespaceInformer] and
    [accountQuotaInformer] are the errors of the two [GetInformer] calls,
    [discovered] is what the probe returns and [qm] the monitor that is
    built. *)
Definition NewAccountQuotaController_with
    (namespaceInformer accountQuotaInformer : option error)
    (discovered : GVRMap * option error) (qm : QuotaMonitor)
    : option error * list SetupEffect :=
  match namespaceInformer with
  | Some err => (Some err, [GetInformer NamespaceInformer])
  | None =>
    match accountQuotaInformer with
    | Some err =>
      (Some err,
       [GetInformer NamespaceInformer;
        AddEventHandlerWithResyncPeriod NamespaceInformer;
        GetInformer AccountQuotaInformer])
    | None =>
      let handlers :=
        [GetInformer NamespaceInformer;
         AddEventHandlerWithResyncPeriod NamespaceInformer;
         GetInformer AccountQuotaInformer;
         AddEventHandlerWithResyncPeriod AccountQuotaInformer] in
      (* do initial quota monitor setup *)
      let '(resources, err) := discovered in
      let after_discovery : option (list SetupEffect) :=
        if IsGroupDiscoveryFailedError err
        then Some [Setup (HandleError
                     (ErrOther "initial discovery check failure, continuing and counting on future sync update"))]
        else if isnil err then Some [] else None in
      match after_discovery with
      | None => (err, handlers)
      | Some reported =>
        match SyncMonitors qm resources with
        | Some _ =>
          (None,
           handlers ++ reported
             ++ [Setup (CallSyncMonitors resources);
                 Setup (HandleError (ErrOther "initial monitor sync has error"))])
        | None =>
          (None, handlers ++ reported ++ [Setup (CallSyncMonitors resources)])
        end
      end
    end
  end.

Definition NewAccountQuotaController
    (namespaceInformer accountQuotaInformer : option error) (qm : QuotaMonitor)
    : option error * list SetupEffect :=
  NewAccountQuotaController_with namespaceInformer accountQuotaInformer
    GetQuotableResources qm.

(** ** Summary of a discovery change *)

(** [fmt.Sprintf("%+v", resource)] for a group/version/resource: the type
    has a [String] method, which the verb uses. *)
Definition formatGVR (resource : GroupVersionResource) : string :=
  (GVRGroup resource ++ "/" ++ GVRVersion resource
     ++ ", Resource=" ++ GVRResource resource)%string.

(** [sets.String.List]: the elements in increasing order. *)
Definition sets_String_List (s : gset string) : list string :=
  merge_sort (λ a b, String.leb a b) (elements s).

(** [fmt.Sprintf("%v", list)] for a list of strings. *)
Definition formatList (l : list string) : string :=
  ("[" ++ String.concat " " l ++ "]")%string.

Definition printDiff_removed (oldResources newResources : GVRMap) : list string :=
  sets_String_List
    (list_to_set
       (formatGVR <$>
          List.filter (λ oldResource, bool_decide (oldResource ∉ gvr_entries newResources))
            (elements (gvr_entries oldResources)))).

Definition printDiff_added (oldResources newResources : GVRMap) : list string :=
  sets_String_List
    (list_to_set
       (formatGVR <$>
          List.filter (λ newResource, bool_decide (newResource ∉ gvr_entries oldResources))
            (elements (gvr_entries newResources)))).

Definition printDiff (oldResources newResources : GVRMap) : string :=
  ("added: " ++ formatList (printDiff_added oldResources newResources)
     ++ ", removed: " ++ formatList (printDiff_removed oldResources newResources))%string.

(** ** Reading a written object back

    A reconcile never runs on the object it handed to the status update: a
    later reconcile starts from what [client.Get] returns
    ([syncResourceQuotaFromKey]). The declarations of the API types are not
    under src/; their resource lists ([spec.quota.hard] and the [hard] and
    [used] lists of a status) are marked [omitempty], so that an empty list
    is left out when the object is written and is nil in the object that is
    read. *)

Definition omitempty (r : ResourceList) : ResourceList :=
  if Nat.eqb (len r) 0 then None else r.

Definition readBack_status (status : ResourceQuotaStatus) : ResourceQuotaStatus :=
  {| StatusHard := omitempty (StatusHard status);
     Used := omitempty (Used status) |}.

Definition readBack_namespace (e : AccountQuotaStatusByNamespace)
    : AccountQuotaStatusByNamespace :=
  {| Namespace := Namespace e;
     NamespaceStatus := readBack_status (NamespaceStatus e) |}.

(** What [client.Get] returns once [obj] has been written. *)
Definition readBack (obj : AccountQuota) : AccountQuota :=
  {| ObjectNamespace := ObjectNamespace obj;
     Name := Name obj;
     Spec := {| Account := Account (Spec obj);
                Quota := {| Hard := omitempty (Hard (Quota (Spec obj)));
                            Scopes := Scopes (Quota (Spec obj));
                            ScopeSelector := ScopeSelector (Quota (Spec obj)) |} |};
     Status := {| Total := readBack_status (Total (Status obj));
                  Namespaces := readBack_namespace <$> Namespaces (Status obj) |} |}.

(** ** More sample objects *)

(** The sample cluster when the evaluators do not fail. *)
Definition quiet_cluster : Cluster :=
  {| registry := registry sample_cluster;
     CalculateUsage := λ namespace _ _ _,
       if String.eqb namespace "n1"
       then (Some {[ "pods" := 1%Z; "services" := 2%Z ]}, None)
       else (Some ∅, None);
     ListNamespaces := ListNamespaces sample_cluster;
     ListAccountQuotas := ListAccountQuotas sample_cluster;
     Status_Update := Status_Update sample_cluster |}.

(** The sample quota once reconciled in the sample cluster, when its limit
    on pods is raised and a limit on secrets is declared. *)
Definition raised_quota : AccountQuota :=
  {| ObjectNamespace := "";
     Name := "q";
     Spec := {| Account := "a";
                Quota := {| Hard := Some {[ "pods" := 20%Z; "secrets" := 5%Z ]};
                            Scopes := [];
                            ScopeSelector := None |} |};
     Status := Status sample_usage |}.

(** The sample cluster when the account has no namespace. *)
Definition cluster_without_namespaces : Cluster :=
  {| registry := registry sample_cluster;
     CalculateUsage := CalculateUsage sample_cluster;
     ListNamespaces := λ _, Ok [];
     ListAccountQuotas := ListAccountQuotas sample_cluster;
     Status_Update := Status_Update sample_cluster |}.

(** The object that the first reconcile of the sample quota writes when
    the account has no namespace. *)
Definition usage_without_namespaces : AccountQuota :=
  usageOf cluster_without_namespaces sample_quota [].

(** A client in which only the sample quota exists. *)
Definition sample_Get (key : string) : result AccountQuota :=
  if String.eqb key "q" then Ok sample_quota
  else Err (ErrNotFound "accountquotas not found").

(** Namespaces as delivered by the informer, their account being read from
    the label "account". *)
Definition account_label (namespace : NamespaceObject) : string :=
  default "" (Labels namespace !! "account").

Definition namespace_of_a : NamespaceObject :=
  {| NamespaceObjectName := "n1";
     Labels := {[ "account" := "a" ]};
     Annotations := ∅ |}.



Definition sample_quotas_by_account (account : string) : result (list AccountQuota) :=
  if String.eqb account "a" then Ok [sample_quota; reconciled_quota]
  else Ok [].

(** A quota monitor whose resync fails. *)
Definition failing_monitor : QuotaMonitor :=
  {| SyncMonitors := λ _, Some (ErrOther "no informer"); WaitForNamedCacheSync := true |}.

(** A quota monitor whose caches do not fill in time. *)
Definition slow_monitor : QuotaMonitor :=
  {| SyncMonitors := λ _, None; WaitForNamedCacheSync := false |}.

(* ===================================================================== *)
(** * Part II. Properties                                                 *)
(* ===================================================================== *)

(** ** Resource lists *)

Section resource_lists.
Implicit Types a b r : ResourceList.
Implicit Types m : gmap string Z.

Lemma cmp_is_zero_Cmp (x y : Z) : cmp_is_zero (Cmp x y) = true ↔ x = y.
Proof.
  unfold Cmp. destruct (Z.compare_spec x y); simpl; split; intros; try lia; try done.
Qed.

(** The loop shared by [quota.Equals] and the semantic deep-equality
    checks that the first map is included in the second. *)
Lemma keys_found_equal m1 m2 :
  forallb (λ kv, match m2 !! kv.1 with
                 | None => false
                 | Some y => cmp_is_zero (Cmp kv.2 y)
                 end) (map_to_list m1) = true
  ↔ m1 ⊆ m2.
Proof.
  rewrite forallb_forall, map_subseteq_spec. split.
  - intros H k x Hk.
    specialize (H (k, x)). simpl in H.
    destruct (m2 !! k) as [y|] eqn:E.
    + f_equal. symmetry. apply cmp_is_zero_Cmp, H.
      apply list_elem_of_In, elem_of_map_to_list, Hk.
    + discriminate H. apply list_elem_of_In, elem_of_map_to_list, Hk.
  - intros H [k x] Hin. simpl.
    apply list_elem_of_In, elem_of_map_to_list in Hin.
    rewrite (H k x Hin). by apply cmp_is_zero_Cmp.
Qed.

Lemma Equals_true a b : quota.Equals a b = true ↔ entries a = entries b.
Proof.
  unfold quota.Equals, len.
  destruct (Nat.eqb_spec (size (entries a)) (size (entries b))) as [Hs|Hs]; simpl.
  - rewrite keys_found_equal. split.
    + intros Hsub. apply map_subseteq_size_eq; [done | lia].
    + by intros ->.
  - split; [done | intros E; by rewrite E in Hs].
Qed.

Lemma Equals_refl a : quota.Equals a a = true.
Proof. by apply Equals_true. Qed.

Lemma Semantic_DeepEqual_true a b :
  apiequality.Semantic_DeepEqual a b = true ↔ entries a = entries b.
Proof.
  unfold apiequality.Semantic_DeepEqual, len.
  assert (Hnil : ∀ r, isnil r || Nat.eqb (size (entries r)) 0 = true
                      ↔ entries r = ∅).
  { intros [m|]; simpl.
    - rewrite Nat.eqb_eq. apply map_size_empty_iff.
    - done. }
  destruct (isnil a || Nat.eqb (size (entries a)) 0) eqn:Ea;
    destruct (isnil b || Nat.eqb (size (entries b)) 0) eqn:Eb; simpl.
  - apply Hnil in Ea, Eb. by rewrite Ea, Eb.
  - split; [done |]. intros E. apply Hnil in Ea. rewrite E in Ea.
    apply Hnil in Ea. congruence.
  - split; [done |]. intros E. apply Hnil in Eb. rewrite <- E in Eb.
    apply Hnil in Eb. congruence.
  - destruct (Nat.eqb_spec (size (entries a)) (size (entries b))) as [Hs|Hs]; simpl.
    + rewrite keys_found_equal. split.
      * intros Hsub. apply map_subseteq_size_eq; [done | lia].
      * by intros ->.
    + split; [done | intros E; by rewrite E in Hs].
Qed.

Lemma Add_empty_l b : quota.Add (Some ∅) b = Some (entries b).
Proof.
  unfold quota.Add. f_equal. simpl. apply map_eq. intros k.
  rewrite lookup_union_with, lookup_empty. by destruct (entries b !! k).
Qed.

Lemma lookup_Add a b k :
  entries (quota.Add a b) !! k
  = union_with (λ x y, Some (x + y)%Z) (entries a !! k) (entries b !! k).
Proof. unfold quota.Add. simpl. apply lookup_union_with. Qed.

Lemma elem_of_ResourceNames r k :
  k ∈ quota.ResourceNames r ↔ is_Some (entries r !! k).
Proof.
  unfold quota.ResourceNames. rewrite list_elem_of_fmap. split.
  - intros [[k' x] [-> Hin]]. apply elem_of_map_to_list in Hin. by exists x.
  - intros [x Hx]. exists (k, x). split; [done |]. by apply elem_of_map_to_list.
Qed.

Lemma lookup_Mask r names k :
  entries (quota.Mask r names) !! k
  = if decide (k ∈ names) then entries r !! k else None.
Proof.
  unfold quota.Mask. simpl. rewrite map_lookup_filter.
  destruct (entries r !! k) as [x|]; simpl.
  - case_decide; [by rewrite option_guard_True | by rewrite option_guard_False].
  - by case_decide.
Qed.

Lemma Mask_keys r names k :
  is_Some (entries (quota.Mask r names) !! k) → k ∈ names.
Proof. rewrite lookup_Mask. case_decide; [done | by intros [? ?]]. Qed.

End resource_lists.

(** ** The loop of the reconciler *)

Section reconcile_loop.
Variable c : Cluster.
Variable accountQuota : AccountQuota.

Lemma syncLoop_from hardLimits hardResources st items :
  let st' := fold_left (syncLoop_step c accountQuota hardLimits hardResources)
               items st in
  used st'
  = used st
    ++ ((λ n, {| Namespace := NamespaceName n;
                 NamespaceStatus :=
                   {| StatusHard := None;
                      Used := (namespaceUsed c accountQuota hardLimits
                                 hardResources n).1 |} |}) <$> items)
  ∧ totalUsed st'
    = fold_left quota.Add
        ((λ n, (namespaceUsed c accountQuota hardLimits hardResources n).1) <$> items)
        (totalUsed st)
  ∧ errors st'
    = errors st
      ++ omap (λ n, (namespaceUsed c accountQuota hardLimits hardResources n).2) items.
Proof.
  revert st. induction items as [|n items IH]; intros st; simpl.
  - by rewrite !app_nil_r.
  - destruct (IH (syncLoop_step c accountQuota hardLimits hardResources st n))
      as (Hu & Ht & He).
    rewrite Hu, Ht, He. unfold syncLoop_step.
    destruct (namespaceUsed c accountQuota hardLimits hardResources n)
      as [usedList [e|]]; simpl; rewrite <- ?app_assoc; done.
Qed.

Lemma syncLoop_used items :
  used (syncLoop c accountQuota items) = entryOf c accountQuota <$> items.
Proof. unfold syncLoop. apply syncLoop_from. Qed.

Lemma syncLoop_totalUsed items :
  totalUsed (syncLoop c accountQuota items)
  = fold_left quota.Add
      ((λ n, Used (NamespaceStatus (entryOf c accountQuota n))) <$> items)
      (Some ∅).
Proof. unfold syncLoop. apply syncLoop_from. Qed.

Lemma namespaceUsed_err hardLimits hardResources n :
  (namespaceUsed c accountQuota hardLimits hardResources n).2
  = (CalculateUsage c (NamespaceName n) (Scopes (Quota (Spec accountQuota)))
       hardLimits (ScopeSelector (Quota (Spec accountQuota)))).2.
Proof. unfold namespaceUsed. by destruct (CalculateUsage _ _ _ _ _). Qed.

Lemma syncLoop_errors items :
  errors (syncLoop c accountQuota items) = evaluatorErrors c accountQuota items.
Proof.
  unfold syncLoop. cbv zeta.
  destruct (syncLoop_from (quota.Add (Some ∅) (Hard (Quota (Spec accountQuota))))
              (quota.ResourceNames (quota.Add (Some ∅) (Hard (Quota (Spec accountQuota)))))
              {| used := []; totalUsed := Some ∅; errors := [] |} items)
    as (_ & _ & ->). simpl. unfold evaluatorErrors.
  apply list_omap_ext, Forall2_same_length_lookup_2; [done |].
  intros i x y Hx Hy. assert (x = y) as -> by congruence.
  apply namespaceUsed_err.
Qed.

End reconcile_loop.

(** ** Sums of used lists *)

Lemma foldr_add_app (l1 l2 : list Z) :
  foldr Z.add 0%Z (l1 ++ l2) = (foldr Z.add 0 l1 + foldr Z.add 0 l2)%Z.
Proof. induction l1 as [|x l1 IH]; simpl; lia. Qed.

Lemma sum_present_app (l1 l2 : list Z) :
  union_with (λ x y, Some (x + y)%Z) (sum_present l1) (sum_present l2)
  = sum_present (l1 ++ l2).
Proof.
  destruct l1 as [|x l1]; [by destruct l2 |].
  destruct l2 as [|y l2].
  - by rewrite app_nil_r.
  - unfold sum_present. cbn [app union_with option_union_with].
    f_equal. rewrite <- foldr_add_app. done.
Qed.

Lemma sum_present_option (x : option Z) : x = sum_present (option_list x).
Proof. destruct x; simpl; [f_equal; lia | done]. Qed.

Lemma sum_present_Permutation (l1 l2 : list Z) :
  l1 ≡ₚ l2 → sum_present l1 = sum_present l2.
Proof.
  intros HP. assert (foldr Z.add 0%Z l1 = foldr Z.add 0%Z l2) as Hsum.
  { induction HP; simpl; lia. }
  destruct l1, l2; simpl in *; try done.
  - by apply Permutation_nil_cons in HP.
  - symmetry in HP. by apply Permutation_nil_cons in HP.
  - by rewrite Hsum.
Qed.

(** Adding the used lists one after the other, as the loop does, gives for
    every resource name the sum of the quantities reported for it. *)
Lemma lookup_fold_Add (us : list ResourceList) (t : ResourceList) k l :
  entries t !! k = sum_present l →
  entries (fold_left quota.Add us t) !! k
  = sum_present (l ++ omap (λ u, entries u !! k) us).
Proof.
  revert t l. induction us as [|u us IH]; intros t l Ht; simpl.
  - by rewrite app_nil_r.
  - rewrite (IH _ (l ++ option_list (entries u !! k))).
    + rewrite <- app_assoc. by destruct (entries u !! k).
    + rewrite lookup_Add, Ht, (sum_present_option (entries u !! k)) at 1.
      apply sum_present_app.
Qed.

Lemma omap_fmap_compose {A B C} (g : A → B) (f : B → option C) (l : list A) :
  omap f (g <$> l) = omap (f ∘ g) l.
Proof.
  induction l as [|x l IH]; [done |]. csimpl. rewrite IH. done.
Qed.

Lemma syncLoop_total_is_sum c accountQuota items name :
  entries (totalUsed (syncLoop c accountQuota items)) !! name
  = sum_of_used (used (syncLoop c accountQuota items)) name.
Proof.
  rewrite syncLoop_totalUsed, syncLoop_used.
  rewrite (lookup_fold_Add _ _ _ []) by done.
  unfold sum_of_used. rewrite app_nil_l, !omap_fmap_compose. done.
Qed.

Lemma sum_of_used_Permutation namespaces namespaces' name :
  namespaces ≡ₚ namespaces' →
  sum_of_used namespaces name = sum_of_used namespaces' name.
Proof. intros HP. unfold sum_of_used. apply sum_present_Permutation. by rewrite HP. Qed.

(** ** What a reconcile writes *)

Lemma syncResourceQuota_Ok c accountQuota items :
  ListNamespaces c (Account (Spec accountQuota)) = Ok items →
  syncResourceQuota c accountQuota
  = if dirtyOf c accountQuota items
    then (NewAggregate (evaluatorErrors c accountQuota items
                          ++ option_list (Status_Update c (usageOf c accountQuota items))),
          [ClientStatusUpdate (usageOf c accountQuota items)])
    else (NewAggregate (evaluatorErrors c accountQuota items), []).
Proof.
  intros HL. unfold syncResourceQuota. rewrite HL, syncLoop_errors.
  destruct (dirtyOf c accountQuota items); [| done].
  destruct (Status_Update c (usageOf c accountQuota items)); simpl; [done |].
  by rewrite app_nil_r.
Qed.

Lemma syncResourceQuota_written c accountQuota usage :
  ClientStatusUpdate usage ∈ (syncResourceQuota c accountQuota).2 →
  ∃ items,
    ListNamespaces c (Account (Spec accountQuota)) = Ok items
    ∧ dirtyOf c accountQuota items = true
    ∧ usage = usageOf c accountQuota items.
Proof.
  destruct (ListNamespaces c (Account (Spec accountQuota))) as [items|e] eqn:HL.
  - rewrite (syncResourceQuota_Ok _ _ _ HL).
    destruct (dirtyOf c accountQuota items) eqn:Hd; simpl.
    + intros Hin. apply list_elem_of_singleton in Hin. exists items.
      split; [done |]. split; [done |]. congruence.
    + intros Hin. by apply elem_of_nil in Hin.
  - unfold syncResourceQuota. rewrite HL. simpl. intros Hin. by apply elem_of_nil in Hin.
Qed.

Lemma fold_Add_allocated (us : list ResourceList) (t : ResourceList) :
  is_Some t → is_Some (fold_left quota.Add us t).
Proof.
  revert t. induction us as [|u us IH]; intros t Ht; simpl; [done |].
  apply IH. by eexists.
Qed.

Lemma sum_present_is_Some (l : list Z) : is_Some (sum_present l) → ∃ x, x ∈ l.
Proof.
  destruct l as [|x l]; simpl.
  - by intros [? ?].
  - intros _. exists x. by left.
Qed.

Lemma keys_hardLimits (hard : ResourceList) name :
  name ∈ quota.ResourceNames (quota.Add (Some ∅) hard) ↔ name ∈ keys hard.
Proof.
  rewrite elem_of_ResourceNames, Add_empty_l. unfold keys. simpl.
  by rewrite elem_of_dom.
Qed.

Lemma namespaceUsed_fst c accountQuota hardLimits hardResources n :
  (namespaceUsed c accountQuota hardLimits hardResources n).1
  = quota.Mask
      (Some (entries (CalculateUsage c (NamespaceName n)
                        (Scopes (Quota (Spec accountQuota))) hardLimits
                        (ScopeSelector (Quota (Spec accountQuota)))).1
             ∪ entries (previousUsedList accountQuota n)))
      hardResources.
Proof. unfold namespaceUsed. by destruct (CalculateUsage _ _ _ _ _). Qed.

Lemma entryOf_keys c accountQuota n :
  keys (Used (NamespaceStatus (entryOf c accountQuota n)))
  ⊆ keys (Hard (Quota (Spec accountQuota))).
Proof.
  intros name. unfold keys at 1. rewrite elem_of_dom. unfold entryOf.
  cbn [Used NamespaceStatus]. rewrite namespaceUsed_fst.
  intros Hk. apply Mask_keys in Hk. by apply keys_hardLimits in Hk.
Qed.

Lemma syncLoop_total_keys c accountQuota items :
  keys (totalUsed (syncLoop c accountQuota items))
  ⊆ keys (Hard (Quota (Spec accountQuota))).
Proof.
  intros name. unfold keys at 1. rewrite elem_of_dom, syncLoop_total_is_sum.
  unfold sum_of_used. intros Hs. apply sum_present_is_Some in Hs as [x Hx].
  apply list_elem_of_omap in Hx as (e & He & Hx).
  rewrite syncLoop_used in He. apply list_elem_of_fmap in He as (n & -> & _).
  apply (entryOf_keys c accountQuota n). unfold keys. apply elem_of_dom. by exists x.
Qed.

(** ** C1 *)

(** C1. The status that [syncResourceQuota] writes has a total used list
    equal, resource name by resource name, to the sum of the used lists of
    its per-namespace entries; the sum does not depend on the order of the
    entries, and the total does not depend on the order in which the
    namespaces are listed. *)
Theorem total_used_is_sum_of_namespaces c accountQuota usage :
  ClientStatusUpdate usage ∈ (syncResourceQuota c accountQuota).2 →
  (∀ name, entries (Used (Total (Status usage))) !! name
           = sum_of_used (Namespaces (Status usage)) name)
  ∧ (∀ reordered name,
       reordered ≡ₚ Namespaces (Status usage) →
       sum_of_used reordered name = sum_of_used (Namespaces (Status usage)) name)
  ∧ (∀ items items',
       items ≡ₚ items' →
       totalUsed (syncLoop c accountQuota items)
       = totalUsed (syncLoop c accountQuota items')).
Proof.
  intros Hw. apply syncResourceQuota_written in Hw as (items & _ & _ & ->).
  split; [| split].
  - intros name. apply syncLoop_total_is_sum.
  - intros reordered name HP. by apply sum_of_used_Permutation.
  - intros l l' HP.
    destruct (fold_Add_allocated
                ((λ n, Used (NamespaceStatus (entryOf c accountQuota n))) <$> l)
                (Some ∅)) as [m Hm]; [by eexists |].
    destruct (fold_Add_allocated
                ((λ n, Used (NamespaceStatus (entryOf c accountQuota n))) <$> l')
                (Some ∅)) as [m' Hm']; [by eexists |].
    rewrite <- syncLoop_totalUsed in Hm, Hm'.
    rewrite Hm, Hm'. f_equal. apply map_eq. intros name.
    change (entries (Some m) !! name = entries (Some m') !! name).
    rewrite <- Hm, <- Hm', !syncLoop_total_is_sum, !syncLoop_used.
    apply sum_of_used_Permutation. by rewrite HP.
Qed.

Lemma sample_quota_written :
  ClientStatusUpdate sample_usage ∈ (syncResourceQuota sample_cluster sample_quota).2.
Proof. vm_compute. left. Defined.

Lemma total_used_is_sum_of_namespaces_witness :
  entries (Used (Total (Status sample_usage))) !! "pods" = Some 4%Z
  ∧ sum_of_used (Namespaces (Status sample_usage)) "pods" = Some 4%Z.
Proof.
  destruct (total_used_is_sum_of_namespaces sample_cluster sample_quota
              sample_usage sample_quota_written) as (Hsum & _ & _).
  rewrite <- Hsum. split; vm_compute; reflexivity.
Defined.

(** ** C2 *)

(** C2. In the status that [syncResourceQuota] writes, the keys of the total
    used list, of the total hard list and of the used and hard lists of
    every per-namespace entry are keys of [spec.quota.hard]: a resource name
    that is not declared hard appears nowhere in the written status. *)
Theorem written_status_is_masked c accountQuota usage :
  ClientStatusUpdate usage ∈ (syncResourceQuota c accountQuota).2 →
  let declared := keys (Hard (Quota (Spec accountQuota))) in
  keys (Used (Total (Status usage))) ⊆ declared
  ∧ keys (StatusHard (Total (Status usage))) ⊆ declared
  ∧ (∀ e, e ∈ Namespaces (Status usage) →
          keys (Used (NamespaceStatus e)) ⊆ declared
          ∧ keys (StatusHard (NamespaceStatus e)) ⊆ declared).
Proof.
  intros Hw declared. apply syncResourceQuota_written in Hw as (items & _ & _ & ->).
  unfold usageOf. simpl. split; [| split].
  - apply syncLoop_total_keys.
  - by rewrite Add_empty_l.
  - intros e He. rewrite syncLoop_used in He.
    apply list_elem_of_fmap in He as (n & -> & _). split.
    + apply entryOf_keys.
    + unfold entryOf, keys. simpl. set_solver.
Qed.

Lemma written_status_is_masked_witness :
  keys (Used (Total (Status sample_usage))) ⊆ {[ "pods" ]}
  ∧ "services" ∉ keys (Used (Total (Status sample_usage))).
Proof.
  destruct (written_status_is_masked sample_cluster sample_quota
              sample_usage sample_quota_written) as (Htotal & _ & _).
  assert (keys (Hard (Quota (Spec sample_quota))) = {[ "pods" ]}) as Hdeclared.
  { unfold keys. simpl. apply dom_singleton_L. }
  rewrite Hdeclared in Htotal. split; [exact Htotal |].
  intros Hin. apply Htotal in Hin. apply elem_of_singleton in Hin. discriminate Hin.
Defined.

(** ** The dirty flag *)

Lemma isnil_true {A} (r : option A) : isnil r = true ↔ r = None.
Proof. by destruct r. Qed.

Lemma dirtyOf_spec_dirty c accountQuota items :
  dirtyOf c accountQuota items = true
  ↔ spec_dirty accountQuota (Used (Total (Status (usageOf c accountQuota items)))).
Proof.
  unfold dirtyOf, spec_dirty, hard_differs, status_absent.
  rewrite !orb_true_iff, !negb_true_iff, !isnil_true.
  rewrite <- !not_true_iff_false, Semantic_DeepEqual_true, Equals_true.
  tauto.
Qed.

Lemma not_dirtyOf_spec_dirty c accountQuota items :
  dirtyOf c accountQuota items = false
  ↔ ¬ spec_dirty accountQuota (Used (Total (Status (usageOf c accountQuota items)))).
Proof. rewrite <- dirtyOf_spec_dirty. by destruct (dirtyOf c accountQuota items). Qed.

(** ** C3 *)

(** C3, as stated, fails when the listing of the namespaces fails: the hard
    limits of the sample quota differ from its (absent) previous status, so
    that dirty holds whatever the new total is, but the reconcile returns
    the listing error before any write. *)
Lemma write_iff_dirty_counterexample :
  (∀ newTotalUsed, spec_dirty sample_quota newTotalUsed)
  ∧ ¬ writes (syncResourceQuota unreachable_cluster sample_quota).2
  ∧ (syncResourceQuota unreachable_cluster sample_quota).1 = Some (ErrOther "timeout").
Proof.
  split; [| split].
  - intros newTotalUsed. left. intros E.
    apply Semantic_DeepEqual_true in E. vm_compute in E. discriminate E.
  - intros [usage Hin]. vm_compute in Hin. by apply elem_of_nil in Hin.
  - reflexivity.
Qed.

(** C3, amended. When the listing of the namespaces succeeds,
    [syncResourceQuota] performs a status write if and only if dirty holds,
    where dirty is: [spec.quota.hard] differs from the previous
    [status.total.hard], or the previous status is absent, or the newly
    computed total used list differs semantically from the previous one; when
    dirty is false there is no write and the function returns the aggregate
    of the per-namespace evaluator errors. When the listing fails there is no
    write and the listing error is returned. *)
Theorem write_iff_dirty c accountQuota :
  (∀ items,
     ListNamespaces c (Account (Spec accountQuota)) = Ok items →
     let newTotalUsed := Used (Total (Status (usageOf c accountQuota items))) in
     (writes (syncResourceQuota c accountQuota).2
      ↔ spec_dirty accountQuota newTotalUsed)
     ∧ (¬ spec_dirty accountQuota newTotalUsed →
        syncResourceQuota c accountQuota
        = (NewAggregate (evaluatorErrors c accountQuota items), [])))
  ∧ (∀ err,
       ListNamespaces c (Account (Spec accountQuota)) = Err err →
       syncResourceQuota c accountQuota = (Some err, [])).
Proof.
  split.
  - intros items HL newTotalUsed. subst newTotalUsed.
    rewrite (syncResourceQuota_Ok _ _ _ HL), <- dirtyOf_spec_dirty.
    destruct (dirtyOf c accountQuota items); simpl.
    + split.
      * split; [done |]. intros _. eexists. by left.
      * intros Hn. by destruct Hn.
    + split; [| done].
      split; [| done]. intros [usage Hin]. by apply elem_of_nil in Hin.
  - intros err HL. unfold syncResourceQuota. by rewrite HL.
Qed.

Lemma sample_usage_clean :
  dirtyOf sample_cluster sample_usage sample_namespaces = false.
Proof. vm_compute. reflexivity. Qed.

Lemma write_iff_dirty_witness :
  writes (syncResourceQuota sample_cluster sample_quota).2
  ∧ syncResourceQuota sample_cluster sample_usage
    = (Some (aggregate [aggregate [ErrOther "usage stats"]]), [])
  ∧ syncResourceQuota unreachable_cluster sample_quota
    = (Some (ErrOther "timeout"), []).
Proof.
  split; [| split].
  - destruct (write_iff_dirty sample_cluster sample_quota) as [Hok _].
    destruct (Hok sample_namespaces eq_refl) as [Hiff _].
    apply Hiff. right. left. by left.
  - destruct (write_iff_dirty sample_cluster sample_usage) as [Hok _].
    destruct (Hok sample_namespaces eq_refl) as [_ Hclean].
    rewrite Hclean; [reflexivity |].
    apply not_dirtyOf_spec_dirty, sample_usage_clean.
  - destruct (write_iff_dirty unreachable_cluster sample_quota) as [_ Herr].
    apply (Herr (ErrOther "timeout") eq_refl).
Defined.

(** ** Reconciling a second time *)

Lemma entries_Some {V} (m : gmap string V) : entries (Some m) = m.
Proof. done. Qed.

Lemma Mask_allocated r names : quota.Mask r names = Some (entries (quota.Mask r names)).
Proof. done. Qed.

Lemma entryOf_Used_allocated c accountQuota n :
  Used (NamespaceStatus (entryOf c accountQuota n))
  = Some (entries (Used (NamespaceStatus (entryOf c accountQuota n)))).
Proof. unfold entryOf. cbn [Used NamespaceStatus]. by rewrite namespaceUsed_fst. Qed.

Lemma entryOf_Used_not_nil c accountQuota n :
  isnil (Used (NamespaceStatus (entryOf c accountQuota n))) = false.
Proof. by rewrite entryOf_Used_allocated. Qed.

(** Overlaying the new usage on a used list that already is the masked
    overlay of the same usage changes nothing. *)
Lemma Mask_overlay_again (newUsage previous : gmap string Z) names :
  quota.Mask
    (Some (newUsage ∪ entries (quota.Mask (Some (newUsage ∪ previous)) names)))
    names
  = quota.Mask (Some (newUsage ∪ previous)) names.
Proof.
  rewrite (Mask_allocated (Some (newUsage ∪ _))).
  rewrite (Mask_allocated (Some (newUsage ∪ previous))) at 2.
  f_equal. apply map_eq. intros k. rewrite !lookup_Mask.
  case_decide; [| done]. rewrite !entries_Some, !lookup_union, lookup_Mask.
  rewrite decide_True by done. rewrite entries_Some, lookup_union.
  by destruct (newUsage !! k), (previous !! k).
Qed.

(** The inner loop run on the entries that a reconcile has recorded finds,
    for a namespace of the list, the entry recorded for it. *)
Lemma previousUsedList_recorded c accountQuota n (l : list v1Namespace) acc :
  fold_left
    (λ (usedList : ResourceList) nsStatus,
       if String.eqb (Namespace nsStatus) (NamespaceName n)
          && negb (isnil (Used (NamespaceStatus nsStatus)))
       then quota.Add (Some ∅) (Used (NamespaceStatus nsStatus))
       else usedList)
    (entryOf c accountQuota <$> l) acc
  = if decide (n ∈ l)
    then Used (NamespaceStatus (entryOf c accountQuota n))
    else acc.
Proof.
  revert acc. induction l as [|n' l IH]; intros acc.
  - done.
  - rewrite fmap_cons. cbn [fold_left]. rewrite IH.
    destruct (String.eqb_spec (Namespace (entryOf c accountQuota n')) (NamespaceName n))
      as [Hname|Hname].
    + assert (n' = n) as -> by (destruct n', n; simpl in *; congruence).
      rewrite entryOf_Used_not_nil, Add_empty_l, <- entryOf_Used_allocated.
      cbn [negb andb].
      rewrite (decide_True (P := n ∈ n :: l)) by (by left).
      by case_decide.
    + cbn [andb].
      assert (n' ≠ n) as Hne by (intros ->; by apply Hname).
      destruct (decide (n ∈ l)) as [Hin|Hin].
      * rewrite decide_True; [done | by right].
      * rewrite decide_False; [done |]. intros [->|?]%elem_of_cons; done.
Qed.

Lemma entryOf_again c accountQuota items n :
  n ∈ items →
  entryOf c (usageOf c accountQuota items) n = entryOf c accountQuota n.
Proof.
  intros Hin. unfold entryOf at 1. cbn [Spec usageOf].
  rewrite namespaceUsed_fst. cbn [Spec usageOf].
  unfold previousUsedList. cbn [Status Namespaces usageOf].
  rewrite syncLoop_used, previousUsedList_recorded, decide_True by done.
  unfold entryOf. cbn [Used NamespaceStatus]. rewrite namespaceUsed_fst.
  f_equal. f_equal. apply Mask_overlay_again.
Qed.

Lemma usageOf_again c accountQuota items :
  usageOf c (usageOf c accountQuota items) items = usageOf c accountQuota items.
Proof.
  assert (entryOf c (usageOf c accountQuota items) <$> items
          = entryOf c accountQuota <$> items) as Hentries.
  { apply list_fmap_ext. intros i n Hn. apply entryOf_again.
    by apply list_elem_of_lookup_2 in Hn. }
  unfold usageOf at 1. rewrite syncLoop_used, syncLoop_totalUsed.
  rewrite (list_fmap_compose (entryOf c (usageOf c accountQuota items))
             (λ e, Used (NamespaceStatus e))), Hentries.
  rewrite <- list_fmap_compose.
  unfold usageOf. rewrite syncLoop_used, syncLoop_totalUsed. reflexivity.
Qed.

Lemma dirtyOf_again c accountQuota items :
  dirtyOf c (usageOf c accountQuota items) items = false.
Proof.
  unfold dirtyOf. rewrite usageOf_again, Equals_refl.
  cbn [Spec Status Total StatusHard Used usageOf].
  rewrite Add_empty_l.
  assert (apiequality.Semantic_DeepEqual (Hard (Quota (Spec accountQuota)))
            (Some (entries (Hard (Quota (Spec accountQuota))))) = true) as ->
    by (by apply Semantic_DeepEqual_true).
  rewrite syncLoop_totalUsed.
  destruct (fold_Add_allocated
              ((λ n, Used (NamespaceStatus (entryOf c accountQuota n))) <$> items)
              (Some ∅)) as [m ->]; [by eexists |].
  done.
Qed.

(** ** The object read back *)

Lemma entries_omitempty (r : ResourceList) : entries (omitempty r) = entries r.
Proof.
  unfold omitempty, len. destruct (Nat.eqb_spec (size (entries r)) 0) as [Hs|Hs]; [| done].
  by apply map_size_empty_iff in Hs as ->.
Qed.

Lemma omitempty_nil (r : ResourceList) : omitempty r = None ↔ entries r = ∅.
Proof.
  unfold omitempty, len. destruct (Nat.eqb_spec (size (entries r)) 0) as [Hs|Hs].
  - by apply map_size_empty_iff in Hs.
  - split.
    + by intros ->.
    + intros Hr. rewrite Hr, map_size_empty in Hs. done.
Qed.

Lemma omitempty_keep (r : ResourceList) : entries r ≠ ∅ → omitempty r = r.
Proof.
  intros Hr. unfold omitempty, len.
  destruct (Nat.eqb_spec (size (entries r)) 0) as [Hs|Hs]; [| done].
  by apply map_size_empty_iff in Hs.
Qed.

Lemma hardLimits_omitempty (hard : ResourceList) :
  quota.Add (Some ∅) (omitempty hard) = quota.Add (Some ∅) hard.
Proof. by rewrite !Add_empty_l, entries_omitempty. Qed.

(** The inner loop run on the read-back entries of a reconcile finds, for a
    namespace of the list, the entry recorded for it, unless its used list
    was empty and so reads back nil. *)
Lemma previousUsedList_read_back c accountQuota n (l : list v1Namespace) acc :
  fold_left
    (λ (usedList : ResourceList) nsStatus,
       if String.eqb (Namespace nsStatus) (NamespaceName n)
          && negb (isnil (Used (NamespaceStatus nsStatus)))
       then quota.Add (Some ∅) (Used (NamespaceStatus nsStatus))
       else usedList)
    (readBack_namespace <$> (entryOf c accountQuota <$> l)) acc
  = if decide (n ∈ l
               ∧ entries (Used (NamespaceStatus (entryOf c accountQuota n))) ≠ ∅)
    then Used (NamespaceStatus (entryOf c accountQuota n))
    else acc.
Proof.
  revert acc. induction l as [|n' l IH]; intros acc.
  - rewrite decide_False; [done |]. by intros [?%elem_of_nil _].
  - rewrite !fmap_cons. cbn [fold_left]. rewrite IH. clear IH.
    cbn [readBack_namespace Namespace NamespaceStatus readBack_status Used].
    destruct (String.eqb_spec (Namespace (entryOf c accountQuota n')) (NamespaceName n))
      as [Hname|Hname].
    + assert (n' = n) as -> by (destruct n', n; simpl in *; congruence).
      destruct (decide (entries (Used (NamespaceStatus (entryOf c accountQuota n))) = ∅))
        as [Hempty|Hsome].
      * rewrite (proj2 (omitempty_nil _) Hempty). cbn [isnil negb andb].
        rewrite !decide_False by (by intros [_ ?]). done.
      * rewrite (omitempty_keep _ Hsome), entryOf_Used_not_nil.
        rewrite Add_empty_l, <- entryOf_Used_allocated. cbn [negb andb].
        rewrite (decide_True (P := n ∈ n :: l ∧ _)) by (split; [by left | done]).
        by case_decide.
    + cbn [andb].
      assert (n' ≠ n) as Hne by (intros ->; by apply Hname).
      destruct (decide (n ∈ l
                        ∧ entries (Used (NamespaceStatus (entryOf c accountQuota n))) ≠ ∅))
        as [[Hin Hsome]|Hout].
      * rewrite decide_True; [done |]. split; [by right | done].
      * rewrite decide_False; [done |].
        intros [[->|Hin]%elem_of_cons Hsome]; [done |]. by apply Hout.
Qed.

Lemma previousUsedList_after_read_back c accountQuota items n :
  n ∈ items →
  entries (previousUsedList (readBack (usageOf c accountQuota items)) n)
  = entries (Used (NamespaceStatus (entryOf c accountQuota n))).
Proof.
  intros Hin. unfold previousUsedList. cbn [Status Namespaces readBack usageOf].
  rewrite syncLoop_used, previousUsedList_read_back.
  destruct (decide (entries (Used (NamespaceStatus (entryOf c accountQuota n))) = ∅))
    as [Hempty|Hsome].
  - rewrite decide_False by (by intros [_ ?]). by rewrite Hempty.
  - by rewrite decide_True.
Qed.

Lemma entryOf_read_back c accountQuota items n :
  n ∈ items →
  entryOf c (readBack (usageOf c accountQuota items)) n = entryOf c accountQuota n.
Proof.
  intros Hin. unfold entryOf at 1.
  cbn [Spec Quota Hard readBack usageOf]. rewrite !hardLimits_omitempty.
  rewrite namespaceUsed_fst.
  cbn [Spec Quota Scopes ScopeSelector readBack usageOf].
  rewrite (previousUsedList_after_read_back _ _ _ _ Hin).
  unfold entryOf. cbn [Used NamespaceStatus]. rewrite namespaceUsed_fst.
  f_equal. f_equal. apply Mask_overlay_again.
Qed.

Lemma usageOf_read_back c accountQuota items :
  Status (usageOf c (readBack (usageOf c accountQuota items)) items)
  = Status (usageOf c accountQuota items).
Proof.
  assert (entryOf c (readBack (usageOf c accountQuota items)) <$> items
          = entryOf c accountQuota <$> items) as Hentries.
  { apply list_fmap_ext. intros i n Hn. apply entryOf_read_back.
    by apply list_elem_of_lookup_2 in Hn. }
  unfold usageOf at 1. cbn [Status]. rewrite syncLoop_used, syncLoop_totalUsed.
  rewrite (list_fmap_compose (entryOf c (readBack (usageOf c accountQuota items)))
             (λ e, Used (NamespaceStatus e))), Hentries.
  rewrite <- list_fmap_compose.
  cbn [Spec Quota Hard readBack usageOf]. rewrite hardLimits_omitempty.
  unfold usageOf. cbn [Status]. rewrite syncLoop_used, syncLoop_totalUsed.
  reflexivity.
Qed.

(** The reconcile of the object read back is dirty exactly when the total
    hard list or the total used list that was written is empty. *)
Lemma dirtyOf_read_back c accountQuota items :
  dirtyOf c (readBack (usageOf c accountQuota items)) items = true
  ↔ entries (StatusHard (Total (Status (usageOf c accountQuota items)))) = ∅
    ∨ entries (Used (Total (Status (usageOf c accountQuota items)))) = ∅.
Proof.
  rewrite dirtyOf_spec_dirty, usageOf_read_back.
  unfold spec_dirty, hard_differs, status_absent.
  cbn [Spec Quota Hard Status Total StatusHard Used readBack readBack_status].
  rewrite !entries_omitempty, !omitempty_nil.
  assert (entries (Hard (Quota (Spec (usageOf c accountQuota items))))
          = entries (StatusHard (Total (Status (usageOf c accountQuota items)))))
    as Hhard.
  { cbn [Spec Status Total StatusHard usageOf]. by rewrite Add_empty_l. }
  rewrite Hhard. split.
  - intros [Hd | [Habsent | Hd]]; [done | exact Habsent | done].
  - intros Hempty. right. by left.
Qed.

(** ** C5 *)



Lemma sample_usage_lists_not_empty :
  entries (StatusHard (Total (Status sample_usage))) ≠ ∅
  ∧ entries (Used (Total (Status sample_usage))) ≠ ∅.
Proof.
  split; intros E.
  - assert (entries (StatusHard (Total (Status sample_usage))) !! "pods" = None) as Hk
      by (by rewrite E).
    vm_compute in Hk. discriminate Hk.
  - assert (entries (Used (Total (Status sample_usage))) !! "pods" = None) as Hk
      by (by rewrite E).
    vm_compute in Hk. discriminate Hk.
Defined.


(** ** C7 *)

Lemma NewAggregate_nil (errlist : list error) :
  NewAggregate errlist = None ↔ errlist = [].
Proof. by destruct errlist. Qed.

(** C7. Per-namespace evaluator errors are collected and do not abort the
    reconcile: every listed namespace gets its entry, in order, with the usage
    that was found overlaid on it; the status is written when dirty holds;
    the function returns the aggregate of the evaluator errors, followed by
    the error of the write if it failed, hence nil only when no evaluator
    error occurred. *)
Theorem evaluator_errors_do_not_abort c accountQuota items :
  ListNamespaces c (Account (Spec accountQuota)) = Ok items →
  let usage := usageOf c accountQuota items in
  let returned := (syncResourceQuota c accountQuota).1 in
  Namespace <$> Namespaces (Status usage) = NamespaceName <$> items
  ∧ (∀ n name quantity,
       n ∈ items →
       name ∈ keys (Hard (Quota (Spec accountQuota))) →
       entries (CalculateUsage c (NamespaceName n)
                  (Scopes (Quota (Spec accountQuota)))
                  (quota.Add (Some ∅) (Hard (Quota (Spec accountQuota))))
                  (ScopeSelector (Quota (Spec accountQuota)))).1 !! name
       = Some quantity →
       ∃ e, e ∈ Namespaces (Status usage)
            ∧ Namespace e = NamespaceName n
            ∧ entries (Used (NamespaceStatus e)) !! name = Some quantity)
  ∧ (spec_dirty accountQuota (Used (Total (Status usage))) →
     (syncResourceQuota c accountQuota).2 = [ClientStatusUpdate usage])
  ∧ (∃ updateErrors,
       returned = NewAggregate (evaluatorErrors c accountQuota items ++ updateErrors)
       ∧ (updateErrors = []
          ∨ ∃ err, Status_Update c usage = Some err ∧ updateErrors = [err]))
  ∧ (returned = None → evaluatorErrors c accountQuota items = []).
Proof.
  intros HL usage returned.
  assert (∃ updateErrors,
            returned = NewAggregate (evaluatorErrors c accountQuota items ++ updateErrors)
            ∧ (updateErrors = []
               ∨ ∃ err, Status_Update c usage = Some err ∧ updateErrors = [err]))
    as Hreturned.
  { subst returned. rewrite (syncResourceQuota_Ok _ _ _ HL).
    destruct (dirtyOf c accountQuota items); simpl.
    - fold usage. destruct (Status_Update c usage) as [err|] eqn:Hu; simpl.
      + exists [err]. split; [done |]. right. by exists err.
      + exists []. split; [done |]. by left.
    - exists []. rewrite app_nil_r. split; [done |]. by left. }
  split; [| split; [| split; [| split]]].
  - subst usage. cbn [Status Namespaces usageOf]. rewrite syncLoop_used.
    rewrite <- list_fmap_compose. done.
  - intros n name quantity Hn Hname Hq.
    exists (entryOf c accountQuota n). split; [| split].
    + subst usage. cbn [Status Namespaces usageOf]. rewrite syncLoop_used.
      apply list_elem_of_fmap. by exists n.
    + done.
    + unfold entryOf. cbn [Used NamespaceStatus].
      rewrite namespaceUsed_fst, lookup_Mask.
      rewrite decide_True by (by apply keys_hardLimits).
      rewrite entries_Some, lookup_union, Hq.
      by destruct (entries (previousUsedList accountQuota n) !! name).
  - intros Hd. apply dirtyOf_spec_dirty in Hd.
    rewrite (syncResourceQuota_Ok _ _ _ HL), Hd. done.
  - exact Hreturned.
  - destruct Hreturned as (updateErrors & -> & _). intros Hnil.
    apply NewAggregate_nil, app_eq_nil in Hnil. tauto.
Qed.

Lemma evaluator_errors_do_not_abort_witness :
  Namespace <$> Namespaces (Status sample_usage) = ["n1"; "n2"]
  ∧ (syncResourceQuota sample_cluster sample_quota).2 = [ClientStatusUpdate sample_usage]
  ∧ (syncResourceQuota sample_cluster sample_quota).1
    = Some (aggregate [aggregate [ErrOther "usage stats"]]).
Proof.
  destruct (evaluator_errors_do_not_abort sample_cluster sample_quota
              sample_namespaces eq_refl)
    as (Hnames & _ & Hwritten & _ & _).
  split; [exact Hnames |]. split.
  - apply Hwritten. right. left. by left.
  - vm_compute. reflexivity.
Defined.

(** ** C4 *)

Lemma KeyFunc_Ok obj : ∃ key, KeyFunc obj = Ok key.
Proof. unfold KeyFunc. destruct (Nat.ltb _ _); eauto. Qed.

Lemma MatchingResources_claims evaluator names :
  Nat.ltb 0 (length (MatchingResources evaluator names)) = true
  ↔ MatchingResources evaluator names ≠ [].
Proof.
  destruct (MatchingResources evaluator names); simpl; split; intros; done.
Qed.

(** The nested loops of [addQuota] find a resource exactly when some
    declared hard resource misses its usage and an evaluator claims it. *)
Lemma addQuota_loop_usage_missing registry accountQuota :
  ¬ hard_differs accountQuota →
  existsb
    (λ constraint,
       match entries (Used (Total (Status accountQuota))) !! constraint with
       | Some _ => false
       | None =>
         existsb
           (λ evaluator,
              Nat.ltb 0 (length (MatchingResources evaluator [constraint])))
           (Registry_List registry)
       end)
    (map_to_list (entries (StatusHard (Total (Status accountQuota))))).*1 = true
  ↔ usage_missing registry accountQuota.
Proof.
  intros Hsame. unfold hard_differs in Hsame. apply dec_stable in Hsame.
  change ((map_to_list (entries (StatusHard (Total (Status accountQuota))))).*1)
    with (quota.ResourceNames (StatusHard (Total (Status accountQuota)))).
  unfold usage_missing, keys. rewrite Hsame, existsb_exists. split.
  - intros (name & Hin & Hfound).
    apply list_elem_of_In, elem_of_ResourceNames in Hin.
    exists name. split; [by apply elem_of_dom |].
    destruct (entries (Used (Total (Status accountQuota))) !! name) eqn:Hu;
      [done |].
    split; [by apply not_elem_of_dom |].
    apply existsb_exists in Hfound as (evaluator & Hev & Hclaims).
    exists evaluator. split; [by apply list_elem_of_In |].
    by apply MatchingResources_claims.
  - intros (name & Hin & Hno & evaluator & Hev & Hclaims).
    exists name. split.
    + apply list_elem_of_In, elem_of_ResourceNames. by apply elem_of_dom.
    + apply not_elem_of_dom in Hno. rewrite Hno. apply existsb_exists.
      exists evaluator. split; [by apply list_elem_of_In |].
      by apply MatchingResources_claims.
Qed.

(** C4. For every observed account quota, [addQuota] adds its key to the
    priority queue when [spec.quota.hard] differs from [status.total.hard];
    otherwise to the priority queue when some declared hard resource has no
    entry in [status.total.used] and some registered evaluator claims it;
    otherwise to the primary queue. Exactly one queue receives the key. *)
Theorem addQuota_chooses_one_queue registry accountQuota :
  ∃ key,
    KeyFunc accountQuota = Ok key
    ∧ (hard_differs accountQuota →
       addQuota registry accountQuota = [QueueAdd missingUsageQueue key])
    ∧ (¬ hard_differs accountQuota → usage_missing registry accountQuota →
       addQuota registry accountQuota = [QueueAdd missingUsageQueue key])
    ∧ (¬ hard_differs accountQuota → ¬ usage_missing registry accountQuota →
       addQuota registry accountQuota = [QueueAdd queue key])
    ∧ (∃ q, addQuota registry accountQuota = [QueueAdd q key]).
Proof.
  destruct (KeyFunc_Ok accountQuota) as [key Hkey]. exists key.
  split; [exact Hkey |].
  unfold addQuota. rewrite Hkey.
  destruct (apiequality.Semantic_DeepEqual (Hard (Quota (Spec accountQuota)))
              (StatusHard (Total (Status accountQuota)))) eqn:Heq; simpl.
  - apply Semantic_DeepEqual_true in Heq.
    assert (¬ hard_differs accountQuota) as Hsame by (intros Hd; by apply Hd).
    pose proof (addQuota_loop_usage_missing registry accountQuota Hsame) as Hloop.
    destruct (existsb _ _) eqn:Hex.
    + assert (usage_missing registry accountQuota) as Hmiss by (by apply Hloop).
      repeat split; try done; eauto.
    + assert (¬ usage_missing registry accountQuota) as Hmiss.
      { intros Hm. apply Hloop in Hm. discriminate Hm. }
      repeat split; try done; eauto.
  - assert (hard_differs accountQuota) as Hd.
    { intros E. apply Semantic_DeepEqual_true in E. congruence. }
    repeat split; try done; eauto.
Qed.

Lemma sample_usage_hard_same : ¬ hard_differs sample_usage.
Proof.
  intros Hd. apply Hd. apply Semantic_DeepEqual_true. vm_compute. reflexivity.
Defined.

Lemma sample_quota_without_usage_hard_same : ¬ hard_differs sample_quota_without_usage.
Proof.
  intros Hd. apply Hd. apply Semantic_DeepEqual_true. vm_compute. reflexivity.
Defined.

Lemma sample_quota_hard_differs : hard_differs sample_quota.
Proof.
  intros E. apply Semantic_DeepEqual_true in E. vm_compute in E. discriminate E.
Defined.

Lemma addQuota_chooses_one_queue_witness :
  addQuota [pods_evaluator] sample_quota = [QueueAdd missingUsageQueue "q"]
  ∧ addQuota [pods_evaluator] sample_quota_without_usage
    = [QueueAdd missingUsageQueue "q"]
  ∧ addQuota [pods_evaluator] sample_usage = [QueueAdd queue "q"].
Proof.
  split; [| split].
  - destruct (addQuota_chooses_one_queue [pods_evaluator] sample_quota)
      as (key & Hkey & Hdiffers & _).
    vm_compute in Hkey. injection Hkey as <-.
    apply Hdiffers, sample_quota_hard_differs.
  - destruct (addQuota_chooses_one_queue [pods_evaluator] sample_quota_without_usage)
      as (key & Hkey & _ & Hmissing & _).
    vm_compute in Hkey. injection Hkey as <-.
    apply Hmissing; [apply sample_quota_without_usage_hard_same |].
    apply addQuota_loop_usage_missing;
      [apply sample_quota_without_usage_hard_same |].
    vm_compute. reflexivity.
  - destruct (addQuota_chooses_one_queue [pods_evaluator] sample_usage)
      as (key & Hkey & _ & _ & Hprimary & _).
    vm_compute in Hkey. injection Hkey as <-.
    apply Hprimary; [apply sample_usage_hard_same |].
    intros Hm. apply addQuota_loop_usage_missing in Hm;
      [| apply sample_usage_hard_same].
    vm_compute in Hm. discriminate Hm.
Defined.

(** ** C10 *)

Lemma enqueueAccountQuota_key obj key :
  KeyFunc obj = Ok key → enqueueAccountQuota obj = [QueueAdd queue key].
Proof. intros H. unfold enqueueAccountQuota. by rewrite H. Qed.

Lemma MatchingResources_nil evaluator : MatchingResources evaluator [] = [].
Proof. done. Qed.

Lemma ResourceNames_unwritten (r : ResourceList) :
  entries r = ∅ → quota.ResourceNames r = [].
Proof. intros H. unfold quota.ResourceNames. rewrite H, map_to_list_empty. done. Qed.

(** C10. [replenishQuota] adds keys to the primary queue only, and only
    keys of listed account quotas whose [status.total.hard] has names that
    the evaluator of the group resource matches; without an evaluator for the
    group resource, or with an empty quota list, it does nothing; a listed
    quota whose [status.total.hard] is still unwritten (nil or empty), whatever
    its spec declares, does not get its key added. *)
Theorem replenishQuota_enqueues_tracked_on_primary c groupResource namespace :
  (∀ q key,
     QueueAdd q key ∈ replenishQuota c groupResource namespace →
     q = queue
     ∧ ∃ evaluator items accountQuota,
         Registry_Get (registry c) groupResource = Some evaluator
         ∧ ListAccountQuotas c = Ok items
         ∧ accountQuota ∈ items
         ∧ KeyFunc accountQuota = Ok key
         ∧ MatchingResources evaluator
             (quota.ResourceNames (StatusHard (Total (Status accountQuota)))) ≠ [])
  ∧ (Registry_Get (registry c) groupResource = None →
     replenishQuota c groupResource namespace = [])
  ∧ (ListAccountQuotas c = Ok [] →
     replenishQuota c groupResource namespace = [])
  ∧ (∀ items accountQuota key q,
       ListAccountQuotas c = Ok items →
       accountQuota ∈ items →
       KeyFunc accountQuota = Ok key →
       (∀ other, other ∈ items → KeyFunc other = Ok key → other = accountQuota) →
       entries (StatusHard (Total (Status accountQuota))) = ∅ →
       QueueAdd q key ∉ replenishQuota c groupResource namespace).
Proof.
  assert (∀ q key,
     QueueAdd q key ∈ replenishQuota c groupResource namespace →
     q = queue
     ∧ ∃ evaluator items accountQuota,
         Registry_Get (registry c) groupResource = Some evaluator
         ∧ ListAccountQuotas c = Ok items
         ∧ accountQuota ∈ items
         ∧ KeyFunc accountQuota = Ok key
         ∧ MatchingResources evaluator
             (quota.ResourceNames (StatusHard (Total (Status accountQuota)))) ≠ [])
    as Honly.
  { intros q key. unfold replenishQuota.
    destruct (Registry_Get (registry c) groupResource) as [evaluator|];
      [| by intros ?%elem_of_nil].
    destruct (ListAccountQuotas c) as [items|err].
    - destruct (Nat.eqb (length items) 0); [by intros ?%elem_of_nil |].
      intros Hin. apply list_elem_of_In, in_flat_map in Hin
        as (accountQuota & Haq & Hin).
      apply list_elem_of_In in Haq, Hin.
      destruct (Nat.ltb 0 _) eqn:Hm; [| by apply elem_of_nil in Hin].
      destruct (KeyFunc_Ok accountQuota) as [key' Hkey].
      rewrite (enqueueAccountQuota_key _ _ Hkey) in Hin.
      apply list_elem_of_singleton in Hin. injection Hin as -> ->.
      split; [done |]. exists evaluator, items, accountQuota.
      repeat split; try done. by apply MatchingResources_claims.
    - destruct (IsNotFound (Some err)); intros Hin;
        apply list_elem_of_singleton in Hin; discriminate Hin. }
  split; [exact Honly |]. split; [| split].
  - intros Hnone. unfold replenishQuota. by rewrite Hnone.
  - intros Hnil. unfold replenishQuota. rewrite Hnil.
    by destruct (Registry_Get (registry c) groupResource).
  - intros items accountQuota key q HL Hin Hkey Hunique Hunwritten Hadded.
    apply Honly in Hadded
      as (_ & evaluator & items' & other & _ & HL' & Hother & Hkey' & Hmatch).
    rewrite HL in HL'. injection HL' as <-.
    rewrite (Hunique other Hother Hkey') in Hmatch.
    by rewrite (ResourceNames_unwritten _ Hunwritten) in Hmatch.
Qed.

Lemma replenishQuota_enqueues_tracked_on_primary_witness :
  replenishQuota cluster_with_two_quotas {| Group := ""; Resource := "pods" |} "n1"
  = [QueueAdd queue "q2"]
  ∧ (QueueAdd queue "q"
     ∉ replenishQuota cluster_with_two_quotas {| Group := ""; Resource := "pods" |} "n1")
  ∧ replenishQuota cluster_with_two_quotas {| Group := ""; Resource := "services" |} "n1"
    = [].
Proof.
  split; [vm_compute; reflexivity |]. split.
  - destruct (replenishQuota_enqueues_tracked_on_primary cluster_with_two_quotas
                {| Group := ""; Resource := "pods" |} "n1") as (_ & _ & _ & Hunwritten).
    apply (Hunwritten [sample_quota; reconciled_quota] sample_quota "q" queue);
      try reflexivity.
    + by left.
    + intros other Hother Hkey.
      apply elem_of_cons in Hother as [->|Hother]; [done |].
      apply list_elem_of_singleton in Hother as ->. vm_compute in Hkey. discriminate Hkey.
  - destruct (replenishQuota_enqueues_tracked_on_primary cluster_with_two_quotas
                {| Group := ""; Resource := "services" |} "n1") as (_ & Hnone & _).
    apply Hnone. reflexivity.
Defined.

(** ** C6 *)

Lemma discovered_some (resources : GVRMap) :
  Nat.ltb 0 (size (gvr_entries resources)) = true ↔ gvr_entries resources ≠ ∅.
Proof.
  rewrite Nat.ltb_lt. split.
  - intros Hpos E. rewrite E, size_empty in Hpos. lia.
  - intros Hne. destruct (size (gvr_entries resources)) eqn:Hs; [| lia].
    apply size_empty_iff, leibniz_equiv in Hs. done.
Qed.

Lemma reflect_DeepEqual_true (a b : GVRMap) : reflect_DeepEqual a b = true ↔ a = b.
Proof.
  destruct a as [x|], b as [y|]; simpl; try (split; done).
  rewrite bool_decide_eq_true. split; congruence.
Qed.

Lemma Sync_apply_unchanged quotaMonitor oldResources :
  Sync_apply quotaMonitor oldResources oldResources = (oldResources, []).
Proof.
  unfold Sync_apply.
  by rewrite (proj2 (reflect_DeepEqual_true oldResources oldResources) eq_refl).
Qed.

(** Whatever happens after discovery, the monitors are only ever resynced
    to the new set, and the remembered set is the old one or the new one. *)
Lemma Sync_apply_outcome quotaMonitor oldResources newResources :
  (∀ resources,
     CallSyncMonitors resources
       ∈ (Sync_apply quotaMonitor oldResources newResources).2 →
     resources = newResources)
  ∧ ((Sync_apply quotaMonitor oldResources newResources).1 = oldResources
     ∨ (Sync_apply quotaMonitor oldResources newResources).1 = newResources).
Proof.
  unfold Sync_apply, resyncMonitors.
  destruct (reflect_DeepEqual oldResources newResources).
  { split; [by intros ? ?%elem_of_nil | by left]. }
  destruct quotaMonitor as [qm|]; simpl.
  - destruct (SyncMonitors qm newResources); simpl.
    + split; [| by left]. intros r Hin.
      repeat (apply elem_of_cons in Hin as [Hin|Hin]; [congruence |]).
      by apply elem_of_nil in Hin.
    + destruct (WaitForNamedCacheSync qm); simpl.
      * split; [| by right]. intros r Hin.
        repeat (apply elem_of_cons in Hin as [Hin|Hin]; [congruence |]).
        by apply elem_of_nil in Hin.
      * split; [| by left]. intros r Hin.
        repeat (apply elem_of_cons in Hin as [Hin|Hin]; [congruence |]).
        by apply elem_of_nil in Hin.
  - split; [| by right]. intros r Hin.
    repeat (apply elem_of_cons in Hin as [Hin|Hin]; [congruence |]).
    by apply elem_of_nil in Hin.
Qed.

(** C6. On a tick of the sync loop: when discovery returns a
    partial-discovery error together with a non-empty set, the remembered set
    is united with the new set, so that the set handed to the monitors and
    the set remembered afterwards contain the remembered one; when discovery
    fails totally (another error, or no resource with an error) the tick stops
    after reporting the error, the remembered set and the monitors being left
    as they are; when the resulting set equals the remembered set the tick
    does nothing more. *)
Theorem Sync_tick_discovery quotaMonitor oldResources newResources :
  (∀ err,
     IsGroupDiscoveryFailedError (Some err) = true →
     gvr_entries newResources ≠ ∅ →
     let merged : GVRMap :=
       Some (gvr_entries oldResources ∪ gvr_entries newResources) in
     let tick := Sync_tick (newResources, Some err) quotaMonitor oldResources in
     tick = (let '(remembered, calls) :=
               Sync_apply quotaMonitor oldResources merged in
             (remembered, HandleError err :: calls))
     ∧ gvr_entries oldResources ⊆ gvr_entries merged
     ∧ gvr_entries newResources ⊆ gvr_entries merged
     ∧ (∀ resources, CallSyncMonitors resources ∈ tick.2 →
                     gvr_entries oldResources ⊆ gvr_entries resources)
     ∧ gvr_entries oldResources ⊆ gvr_entries tick.1
     ∧ (merged = oldResources → tick = (oldResources, [HandleError err])))
  ∧ (∀ err,
       IsGroupDiscoveryFailedError (Some err) = false
       ∨ gvr_entries newResources = ∅ →
       Sync_tick (newResources, Some err) quotaMonitor oldResources
       = (oldResources, [HandleError err]))
  ∧ (newResources = oldResources →
     Sync_tick (newResources, None) quotaMonitor oldResources
     = (oldResources, [])).
Proof.
  split; [| split].
  - intros err Hpartial Hsome merged tick.
    assert (tick = (let '(remembered, calls) :=
                      Sync_apply quotaMonitor oldResources merged in
                    (remembered, HandleError err :: calls))) as Htick.
    { subst tick. unfold Sync_tick. rewrite Hpartial.
      by rewrite (proj2 (discovered_some newResources) Hsome). }
    destruct (Sync_apply_outcome quotaMonitor oldResources merged)
      as [Hcalls Hremembered].
    split; [exact Htick |]. rewrite Htick.
    destruct (Sync_apply quotaMonitor oldResources merged)
      as [remembered calls] eqn:Happly.
    simpl in *. split; [apply union_subseteq_l |].
    split; [apply union_subseteq_r |].
    split; [| split].
    + intros resources Hin. apply elem_of_cons in Hin as [Hin|Hin]; [done |].
      rewrite (Hcalls _ Hin). simpl. apply union_subseteq_l.
    + destruct Hremembered as [-> | ->]; simpl; [done | apply union_subseteq_l].
    + intros Hsame. subst merged. rewrite Hsame in Happly.
      rewrite Sync_apply_unchanged in Happly. by injection Happly as <- <-.
  - intros err Htotal. unfold Sync_tick.
    destruct Htotal as [Hother|Hnone].
    + by rewrite Hother.
    + destruct (Nat.ltb 0 (size (gvr_entries newResources))) eqn:Hlen.
      * by apply discovered_some in Hlen.
      * by rewrite andb_false_r.
  - intros ->. unfold Sync_tick. apply Sync_apply_unchanged.
Qed.

Lemma Sync_tick_discovery_witness :
  Sync_tick (Some {[ services_v1 ]}, Some (ErrGroupDiscoveryFailed "metrics"))
    (Some healthy_monitor) (Some {[ pods_v1 ]})
  = (Some {[ pods_v1; services_v1 ]},
     [HandleError (ErrGroupDiscoveryFailed "metrics");
      WorkerLock;
      CallSyncMonitors (Some {[ pods_v1; services_v1 ]});
      CallWaitForNamedCacheSync;
      WorkerUnlock])
  ∧ Sync_tick (None, Some (ErrGroupDiscoveryFailed "metrics"))
      (Some healthy_monitor) (Some {[ pods_v1 ]})
    = (Some {[ pods_v1 ]}, [HandleError (ErrGroupDiscoveryFailed "metrics")])
  ∧ Sync_tick GetQuotableResources (Some healthy_monitor) (Some {[ pods_v1 ]})
    = (Some {[ pods_v1 ]}, []).
Proof.
  split; [| split].
  - destruct (Sync_tick_discovery (Some healthy_monitor) (Some {[ pods_v1 ]})
                (Some {[ services_v1 ]})) as (Hpartial & _ & _).
    destruct (Hpartial (ErrGroupDiscoveryFailed "metrics") eq_refl) as (Htick & _).
    + simpl. apply non_empty_singleton_L.
    + rewrite Htick. vm_compute. reflexivity.
  - destruct (Sync_tick_discovery (Some healthy_monitor) (Some {[ pods_v1 ]}) None)
      as (_ & Htotal & _).
    apply Htotal. by right.
  - destruct (Sync_tick_discovery (Some healthy_monitor) (Some {[ pods_v1 ]})
                (Some {[ pods_v1 ]})) as (_ & _ & Hsame).
    exact (Hsame eq_refl).
Defined.

(** ** C8 *)

(** C8 does not hold of the code: [GetQuotableResources] does not consult
    discovery. When services are the only resource served, and support every
    verb, the quotable set of the claim is the one of services, while the
    function returns the one of pods; it never returns an error. *)
Theorem GetQuotableResources_only_pods :
  quotable_served served_services_only = {[ services_v1 ]}
  ∧ GetQuotableResources = (Some {[ pods_v1 ]}, None)
  ∧ gvr_entries GetQuotableResources.1 ≠ quotable_served served_services_only.
Proof.
  assert (quotable_served served_services_only = {[ services_v1 ]}) as Hserved.
  { unfold quotable_served. simpl. set_solver. }
  split; [exact Hserved |]. split; [reflexivity |].
  rewrite Hserved. simpl. intros E.
  assert (pods_v1 ∈ ({[ services_v1 ]} : gset GroupVersionResource)) as Hin.
  { rewrite <- E. by apply elem_of_singleton. }
  apply elem_of_singleton in Hin. discriminate Hin.
Qed.

(** ** C9 *)

(** C9 does not hold of the code: once the stop channel is closed, [Run]
    logs, shuts the primary queue down and returns; no call of [Run] shuts
    the priority queue down, whatever the number of workers. *)
Theorem Run_shuts_down_primary_queue_only quotaMonitor_present workers :
  (∃ started,
     Run quotaMonitor_present workers
     = started ++ [ReceiveStop;
                   Log "Shutting down resource quota controller";
                   QueueShutDown queue;
                   HandleCrash]
     ∧ ∀ q, QueueShutDown q ∉ started)
  ∧ QueueShutDown queue ∈ Run quotaMonitor_present workers
  ∧ QueueShutDown missingUsageQueue ∉ Run quotaMonitor_present workers.
Proof.
  set (started :=
         [Log "Starting resource quota controller"]
         ++ (if quotaMonitor_present then [Go quotaMonitor_Run] else [])
         ++ flat_map (λ _, [Go (worker queue); Go (worker missingUsageQueue)])
              (seq 0 (Z.to_nat workers))
         ++ [Go enqueueAll_ticker]).
  assert (Run quotaMonitor_present workers
          = started ++ [ReceiveStop;
                        Log "Shutting down resource quota controller";
                        QueueShutDown queue;
                        HandleCrash]) as HRun.
  { unfold Run, started. simpl. by rewrite <- !app_assoc. }
  assert (∀ q, QueueShutDown q ∉ started) as Hstarted.
  { intros q Hin. unfold started in Hin.
    rewrite !elem_of_app in Hin. destruct Hin as [Hin|[Hin|[Hin|Hin]]].
    - apply list_elem_of_singleton in Hin. discriminate Hin.
    - destruct quotaMonitor_present;
        [apply list_elem_of_singleton in Hin; discriminate Hin
        | by apply elem_of_nil in Hin].
    - apply list_elem_of_In, in_flat_map in Hin as (i & _ & Hin).
      destruct Hin as [Hin|[Hin|[]]]; discriminate Hin.
    - apply list_elem_of_singleton in Hin. discriminate Hin. }
  split; [by exists started |]. rewrite HRun. split.
  - apply elem_of_app. right. do 2 right. by left.
  - intros Hin. apply elem_of_app in Hin as [Hin|Hin]; [by apply Hstarted in Hin |].
    repeat (apply elem_of_cons in Hin as [Hin|Hin]; [discriminate Hin |]).
    by apply elem_of_nil in Hin.
Qed.

(* ===================================================================== *)
(** * Part III. Further properties of the controller                      *)
(* ===================================================================== *)

(** ** The result of a reconcile *)

(** X1. [syncResourceQuota] returns nil exactly when the listing of the
    namespaces succeeds, no evaluator fails on any of them and, if the status
    is dirty, the status update succeeds. *)
Theorem syncResourceQuota_nil_iff c accountQuota :
  (syncResourceQuota c accountQuota).1 = None
  ↔ ∃ items,
      ListNamespaces c (Account (Spec accountQuota)) = Ok items
      ∧ evaluatorErrors c accountQuota items = []
      ∧ (dirtyOf c accountQuota items = true →
         Status_Update c (usageOf c accountQuota items) = None).
Proof.
  destruct (ListNamespaces c (Account (Spec accountQuota))) as [items|err] eqn:HL.
  - rewrite (syncResourceQuota_Ok _ _ _ HL). split.
    + intros Hnil. exists items. split; [done |].
      destruct (dirtyOf c accountQuota items); simpl in Hnil;
        apply NewAggregate_nil in Hnil.
      * apply app_eq_nil in Hnil as [Hev Hup]. split; [done |]. intros _.
        by destruct (Status_Update c (usageOf c accountQuota items)).
      * split; [done |]. intros Hd. discriminate Hd.
    + intros (items' & Hitems & Hev & Hup). injection Hitems as <-.
      rewrite Hev. destruct (dirtyOf c accountQuota items); simpl; [| done].
      by rewrite Hup.
  - unfold syncResourceQuota. rewrite HL. simpl. split; [done |].
    intros (items & Hitems & _). discriminate Hitems.
Qed.

Lemma syncResourceQuota_nil_iff_witness :
  (syncResourceQuota quiet_cluster sample_quota).1 = None
  ∧ (syncResourceQuota sample_cluster sample_quota).1 ≠ None.
Proof.
  split.
  - apply syncResourceQuota_nil_iff. exists sample_namespaces.
    split; [reflexivity |]. split; [vm_compute; reflexivity |]. reflexivity.
  - intros Hnil. apply syncResourceQuota_nil_iff in Hnil as (items & Hitems & Hev & _).
    injection Hitems as <-. vm_compute in Hev. discriminate Hev.
Defined.

(** ** The used list of a namespace *)

(** X2. In a written status the used list of a namespace holds, for a name
    declared in [spec.quota.hard], the quantity that the usage calculation
    found for it and otherwise the quantity of the used list that the
    namespace starts from; it holds nothing for any other name. *)
Theorem written_used_list_overlays_usage c accountQuota usage e name :
  ClientStatusUpdate usage ∈ (syncResourceQuota c accountQuota).2 →
  e ∈ Namespaces (Status usage) →
  let n := {| NamespaceName := Namespace e |} in
  let newUsage :=
    (CalculateUsage c (Namespace e) (Scopes (Quota (Spec accountQuota)))
       (quota.Add (Some ∅) (Hard (Quota (Spec accountQuota))))
       (ScopeSelector (Quota (Spec accountQuota)))).1 in
  entries (Used (NamespaceStatus e)) !! name
  = if decide (name ∈ keys (Hard (Quota (Spec accountQuota))))
    then match entries newUsage !! name with
         | Some quantity => Some quantity
         | None => entries (previousUsedList accountQuota n) !! name
         end
    else None.
Proof.
  intros Hw He n newUsage.
  apply syncResourceQuota_written in Hw as (items & _ & _ & ->).
  cbn [Status Namespaces usageOf] in He. rewrite syncLoop_used in He.
  apply list_elem_of_fmap in He as (n' & -> & _).
  assert (n = n') as -> by (subst n; by destruct n').
  subst newUsage. unfold entryOf. cbn [Used NamespaceStatus Namespace].
  rewrite namespaceUsed_fst, lookup_Mask.
  destruct (decide (name ∈ keys (Hard (Quota (Spec accountQuota))))) as [Hin|Hout].
  - rewrite decide_True by (by apply keys_hardLimits).
    rewrite entries_Some, lookup_union.
    destruct (entries (CalculateUsage _ _ _ _ _).1 !! name) as [quantity|];
      by destruct (entries (previousUsedList accountQuota n') !! name).
  - rewrite decide_False; [done |]. intros Hin. by apply keys_hardLimits in Hin.
Qed.

Lemma written_used_list_overlays_usage_witness :
  ∃ e, e ∈ Namespaces (Status sample_usage)
       ∧ Namespace e = "n1"
       ∧ entries (Used (NamespaceStatus e)) !! "pods" = Some 1%Z
       ∧ entries (Used (NamespaceStatus e)) !! "services" = None.
Proof.
  exists (entryOf sample_cluster sample_quota {| NamespaceName := "n1" |}).
  assert (entryOf sample_cluster sample_quota {| NamespaceName := "n1" |}
          ∈ Namespaces (Status sample_usage)) as Hin by (vm_compute; left).
  split; [exact Hin |]. split; [reflexivity |]. split.
  - rewrite (written_used_list_overlays_usage sample_cluster sample_quota
               sample_usage _ "pods" sample_quota_written Hin).
    vm_compute. reflexivity.
  - rewrite (written_used_list_overlays_usage sample_cluster sample_quota
               sample_usage _ "services" sample_quota_written Hin).
    vm_compute. reflexivity.
Defined.

(** X3. The used list that a namespace starts from is a copy of the used
    list of the last entry of the previous status that bears its name and
    has a used list; it is empty when there is no such entry. *)
Theorem previousUsedList_last_entry accountQuota n :
  (∀ before e after,
     Namespaces (Status accountQuota) = before ++ e :: after →
     Namespace e = NamespaceName n →
     Used (NamespaceStatus e) ≠ None →
     (∀ e', e' ∈ after → Namespace e' = NamespaceName n →
            Used (NamespaceStatus e') = None) →
     previousUsedList accountQuota n = Some (entries (Used (NamespaceStatus e))))
  ∧ ((∀ e, e ∈ Namespaces (Status accountQuota) →
           Namespace e = NamespaceName n → Used (NamespaceStatus e) = None) →
     previousUsedList accountQuota n = Some ∅).
Proof.
  unfold previousUsedList.
  set (step := λ (usedList : option (gmap string Z)) nsStatus,
         if String.eqb (Namespace nsStatus) (NamespaceName n)
            && negb (isnil (Used (NamespaceStatus nsStatus)))
         then quota.Add (Some ∅) (Used (NamespaceStatus nsStatus))
         else usedList).
  assert (∀ l acc,
            (∀ e, e ∈ l → Namespace e = NamespaceName n →
                  Used (NamespaceStatus e) = None) →
            fold_left step l acc = acc) as Hskip.
  { induction l as [|e l IH]; intros acc Hl; [done |]. simpl.
    rewrite IH by (intros e' He'; apply Hl; by right).
    unfold step. destruct (String.eqb_spec (Namespace e) (NamespaceName n)) as [Hn|Hn];
      [| done].
    rewrite (Hl e) by (done || by left). done. }
  split.
  - intros before e after -> Hname Hused Hafter.
    rewrite fold_left_app. simpl. rewrite Hskip by done.
    unfold step at 1. rewrite (proj2 (String.eqb_eq _ _) Hname).
    destruct (Used (NamespaceStatus e)) as [m|] eqn:Hm; [| done].
    simpl. by rewrite Add_empty_l.
  - intros Hnone. by apply Hskip.
Qed.

Lemma previousUsedList_last_entry_witness :
  previousUsedList sample_usage {| NamespaceName := "n2" |}
  = Some {[ "pods" := 3%Z ]}
  ∧ previousUsedList sample_quota {| NamespaceName := "n2" |} = Some ∅.
Proof.
  destruct (previousUsedList_last_entry sample_usage {| NamespaceName := "n2" |})
    as [Hlast _].
  destruct (previousUsedList_last_entry sample_quota {| NamespaceName := "n2" |})
    as [_ Hnone].
  split.
  - rewrite (Hlast [entryOf sample_cluster sample_quota {| NamespaceName := "n1" |}]
               (entryOf sample_cluster sample_quota {| NamespaceName := "n2" |}) []).
    + vm_compute. reflexivity.
    + vm_compute. reflexivity.
    + reflexivity.
    + vm_compute. discriminate.
    + intros e' He'. by apply elem_of_nil in He'.
  - apply Hnone. intros e He. by apply elem_of_nil in He.
Defined.

(** ** The written object *)

(** X4. The object handed to the status update keeps the name, namespace
    and spec of the quota; its total hard list is an allocated copy of
    [spec.quota.hard] and its total used list is allocated, so that the
    written status is neither absent nor behind the spec; the entries of its
    namespaces carry an allocated used list and no hard list. *)
Theorem written_object_reflects_spec c accountQuota usage :
  ClientStatusUpdate usage ∈ (syncResourceQuota c accountQuota).2 →
  Name usage = Name accountQuota
  ∧ ObjectNamespace usage = ObjectNamespace accountQuota
  ∧ Spec usage = Spec accountQuota
  ∧ StatusHard (Total (Status usage))
    = Some (entries (Hard (Quota (Spec accountQuota))))
  ∧ is_Some (Used (Total (Status usage)))
  ∧ ¬ hard_differs usage
  ∧ ¬ status_absent usage
  ∧ (∀ e, e ∈ Namespaces (Status usage) →
          StatusHard (NamespaceStatus e) = None
          ∧ is_Some (Used (NamespaceStatus e))).
Proof.
  intros Hw. apply syncResourceQuota_written in Hw as (items & _ & _ & ->).
  assert (is_Some (totalUsed (syncLoop c accountQuota items))) as Hused.
  { rewrite syncLoop_totalUsed. apply fold_Add_allocated. by eexists. }
  split; [done |]. split; [done |]. split; [done |].
  split; [apply Add_empty_l |]. split; [exact Hused |].
  split; [| split].
  - unfold hard_differs. cbn [Spec Status Total StatusHard usageOf].
    rewrite Add_empty_l. intros Hd. by apply Hd.
  - unfold status_absent. cbn [Status Total StatusHard Used usageOf].
    intros [Hnil|Hnil]; [discriminate Hnil |].
    rewrite Hnil in Hused. by destruct Hused.
  - intros e He. cbn [Status Namespaces usageOf] in He.
    rewrite syncLoop_used in He.
    apply list_elem_of_fmap in He as (n & -> & _). split; [done |].
    rewrite entryOf_Used_allocated. by eexists.
Qed.

Lemma written_object_reflects_spec_witness :
  Name sample_usage = "q"
  ∧ StatusHard (Total (Status sample_usage)) = Some {[ "pods" := 10%Z ]}
  ∧ ¬ status_absent sample_usage.
Proof.
  destruct (written_object_reflects_spec sample_cluster sample_quota sample_usage
              sample_quota_written)
    as (Hname & _ & _ & Hhard & _ & _ & Habsent & _).
  split; [exact Hname |]. split; [| exact Habsent].
  rewrite Hhard. reflexivity.
Defined.

(** ** Events on a reconciled quota *)

(** X5. When the written object is observed again, [addQuota] adds its key
    to the priority queue exactly when a declared hard resource that some
    evaluator claims has no entry in the written total used list, and to the
    primary queue otherwise. *)
Theorem addQuota_after_write c accountQuota usage :
  ClientStatusUpdate usage ∈ (syncResourceQuota c accountQuota).2 →
  ∃ key,
    KeyFunc accountQuota = Ok key
    ∧ (usage_missing (registry c) usage →
       addQuota (registry c) usage = [QueueAdd missingUsageQueue key])
    ∧ (¬ usage_missing (registry c) usage →
       addQuota (registry c) usage = [QueueAdd queue key]).
Proof.
  intros Hw. apply syncResourceQuota_written in Hw as (items & _ & _ & ->).
  destruct (KeyFunc_Ok accountQuota) as [key Hkey]. exists key.
  split; [exact Hkey |].
  assert (KeyFunc (usageOf c accountQuota items) = Ok key) as Hkey' by exact Hkey.
  assert (¬ hard_differs (usageOf c accountQuota items)) as Hsame.
  { unfold hard_differs. cbn [Spec Status Total StatusHard usageOf].
    rewrite Add_empty_l. intros Hd. by apply Hd. }
  pose proof (addQuota_loop_usage_missing (registry c) _ Hsame) as Hloop.
  unfold addQuota. rewrite Hkey'.
  assert (apiequality.Semantic_DeepEqual
            (Hard (Quota (Spec (usageOf c accountQuota items))))
            (StatusHard (Total (Status (usageOf c accountQuota items)))) = true)
    as ->.
  { apply Semantic_DeepEqual_true. by apply dec_stable. }
  cbn [negb]. split.
  - intros Hmiss. apply Hloop in Hmiss. by rewrite Hmiss.
  - intros Hmiss. destruct (existsb _ _) eqn:Hex; [| done].
    destruct Hmiss. by apply Hloop.
Qed.

Lemma addQuota_after_write_witness :
  addQuota (registry sample_cluster) sample_usage = [QueueAdd queue "q"].
Proof.
  destruct (addQuota_after_write sample_cluster sample_quota sample_usage
              sample_quota_written) as (key & Hkey & _ & Hprimary).
  vm_compute in Hkey. injection Hkey as <-.
  apply Hprimary. intros Hm.
  apply addQuota_loop_usage_missing in Hm; [| apply sample_usage_hard_same].
  vm_compute in Hm. discriminate Hm.
Defined.

(** X6. The update handler of account quotas ignores every update that
    leaves [spec.quota.hard] semantically unchanged; in particular the
    update in which the controller's own status write is observed adds no
    key to any queue. *)
Theorem accountQuotaUpdateFunc_ignores_status_updates registry old cur :
  (entries (Hard (Quota (Spec old))) = entries (Hard (Quota (Spec cur))) →
   accountQuotaUpdateFunc registry old cur = [])
  ∧ (∀ c, ClientStatusUpdate cur ∈ (syncResourceQuota c old).2 →
          accountQuotaUpdateFunc registry old cur = []).
Proof.
  assert (entries (Hard (Quota (Spec old))) = entries (Hard (Quota (Spec cur))) →
          accountQuotaUpdateFunc registry old cur = []) as Hsame.
  { intros E. unfold accountQuotaUpdateFunc.
    by rewrite (proj2 (Equals_true _ _) E). }
  split; [exact Hsame |].
  intros c Hw. apply syncResourceQuota_written in Hw as (items & _ & _ & ->).
  by apply Hsame.
Qed.

Lemma accountQuotaUpdateFunc_ignores_status_updates_witness :
  accountQuotaUpdateFunc [pods_evaluator] sample_quota sample_usage = [].
Proof.
  destruct (accountQuotaUpdateFunc_ignores_status_updates [pods_evaluator]
              sample_quota sample_usage) as [_ Hown].
  exact (Hown sample_cluster sample_quota_written).
Defined.

(** X7. When the hard limits of a quota whose status had caught up with its
    spec are changed, the status being carried over, the update handler adds
    the key of the quota to the priority queue. *)
Theorem accountQuotaUpdateFunc_prioritises_new_limits registry old cur :
  entries (Hard (Quota (Spec old))) ≠ entries (Hard (Quota (Spec cur))) →
  Status cur = Status old →
  ¬ hard_differs old →
  ∃ key,
    KeyFunc cur = Ok key
    ∧ accountQuotaUpdateFunc registry old cur = [QueueAdd missingUsageQueue key].
Proof.
  intros Hchanged Hstatus Hsame.
  destruct (KeyFunc_Ok cur) as [key Hkey]. exists key. split; [exact Hkey |].
  unfold accountQuotaUpdateFunc.
  destruct (quota.Equals _ _) eqn:Heq; [by apply Equals_true in Heq |].
  unfold addQuota. rewrite Hkey, Hstatus.
  destruct (apiequality.Semantic_DeepEqual _ _) eqn:Hdeep; [| done].
  apply Semantic_DeepEqual_true in Hdeep.
  unfold hard_differs in Hsame. apply dec_stable in Hsame. congruence.
Qed.

Lemma accountQuotaUpdateFunc_prioritises_new_limits_witness :
  accountQuotaUpdateFunc [pods_evaluator] sample_usage raised_quota
  = [QueueAdd missingUsageQueue "q"].
Proof.
  destruct (accountQuotaUpdateFunc_prioritises_new_limits [pods_evaluator]
              sample_usage raised_quota) as (key & Hkey & Hadded).
  - intros E.
    assert (entries (Hard (Quota (Spec sample_usage))) !! "secrets"
            = entries (Hard (Quota (Spec raised_quota))) !! "secrets") as Hk
      by (by rewrite E).
    vm_compute in Hk. discriminate Hk.
  - reflexivity.
  - apply sample_usage_hard_same.
  - vm_compute in Hkey. injection Hkey as <-. exact Hadded.
Defined.

(** ** Full resync and replenishment *)

Lemma enqueueAll_Ok c items :
  ListAccountQuotas c = Ok items →
  enqueueAll c = flat_map enqueueAccountQuota items.
Proof.
  intros HL. unfold enqueueAll. rewrite HL. clear HL.
  induction items as [|item items' IH]; [done |]. simpl. rewrite IH.
  unfold enqueueAccountQuota. destruct (KeyFunc_Ok item) as [key Hkey].
  by rewrite Hkey.
Qed.

(** X8. When the listing of the account quotas succeeds, [enqueueAll] adds
    to the primary queue one key per listed quota, in the order of the list,
    and makes no other call; when the listing fails it adds no key. *)
Theorem enqueueAll_adds_every_quota c :
  (∀ items,
     ListAccountQuotas c = Ok items →
     ∃ keys,
       Forall2 (λ item key, KeyFunc item = Ok key) items keys
       ∧ enqueueAll c = QueueAdd queue <$> keys)
  ∧ (∀ err q key,
       ListAccountQuotas c = Err err → QueueAdd q key ∉ enqueueAll c).
Proof.
  split.
  - intros items HL. rewrite (enqueueAll_Ok _ _ HL). clear HL.
    induction items as [|item items IH].
    + exists []. split; [constructor | done].
    + destruct IH as (keys & Hkeys & Htrace).
      destruct (KeyFunc_Ok item) as [key Hkey].
      exists (key :: keys). split; [by constructor |].
      simpl. by rewrite (enqueueAccountQuota_key _ _ Hkey), Htrace.
  - intros err q key HL. unfold enqueueAll. rewrite HL.
    intros Hin. apply list_elem_of_singleton in Hin. discriminate Hin.
Qed.

Lemma enqueueAll_adds_every_quota_witness :
  enqueueAll cluster_with_two_quotas = [QueueAdd queue "q"; QueueAdd queue "q2"]
  ∧ QueueAdd queue "q" ∉ enqueueAll unreachable_cluster.
Proof.
  destruct (enqueueAll_adds_every_quota cluster_with_two_quotas) as [Hok _].
  destruct (enqueueAll_adds_every_quota unreachable_cluster) as [_ Herr].
  split.
  - destruct (Hok [sample_quota; reconciled_quota] eq_refl) as (keys & Hkeys & ->).
    apply Forall2_cons_inv_l in Hkeys as (k1 & keys1 & Hk1 & Hkeys & ->).
    apply Forall2_cons_inv_l in Hkeys as (k2 & keys2 & Hk2 & Hkeys & ->).
    apply Forall2_nil_inv_l in Hkeys as ->.
    vm_compute in Hk1, Hk2. injection Hk1 as <-. injection Hk2 as <-. reflexivity.
  - exact (Herr (ErrOther "timeout") queue "q" eq_refl).
Defined.

(** X9. Replenishment never adds a key that a full resync would not add:
    when the listing succeeds, what [replenishQuota] adds is a sublist of what
    [enqueueAll] adds, and in any case every key added by [replenishQuota] is
    added by [enqueueAll]. *)
Theorem replenishQuota_within_enqueueAll c groupResource namespace :
  (∀ items,
     ListAccountQuotas c = Ok items →
     replenishQuota c groupResource namespace `sublist_of` enqueueAll c)
  ∧ (∀ q key,
       QueueAdd q key ∈ replenishQuota c groupResource namespace →
       QueueAdd q key ∈ enqueueAll c).
Proof.
  assert (∀ items,
            ListAccountQuotas c = Ok items →
            replenishQuota c groupResource namespace `sublist_of` enqueueAll c)
    as Hsub.
  { intros items HL. rewrite (enqueueAll_Ok _ _ HL).
    unfold replenishQuota. rewrite HL.
    destruct (Registry_Get (registry c) groupResource) as [evaluator|];
      [| apply sublist_nil_l].
    destruct (Nat.eqb (length items) 0); [apply sublist_nil_l |].
    clear HL. induction items as [|item items IH]; [done |]. simpl.
    destruct (Nat.ltb 0 _).
    - by apply sublist_app.
    - by apply sublist_inserts_l. }
  split; [exact Hsub |].
  intros q key Hin.
  destruct (ListAccountQuotas c) as [items|err] eqn:HL.
  - exact (elem_of_sublist _ _ _ Hin (Hsub items eq_refl)).
  - unfold replenishQuota in Hin. rewrite HL in Hin.
    destruct (Registry_Get (registry c) groupResource);
      [| by apply elem_of_nil in Hin].
    destruct (IsNotFound (Some err));
      apply list_elem_of_singleton in Hin; discriminate Hin.
Qed.

Lemma replenishQuota_within_enqueueAll_witness :
  replenishQuota cluster_with_two_quotas {| Group := ""; Resource := "pods" |} "n1"
  `sublist_of` enqueueAll cluster_with_two_quotas.
Proof.
  destruct (replenishQuota_within_enqueueAll cluster_with_two_quotas
              {| Group := ""; Resource := "pods" |} "n1") as [Hsub _].
  exact (Hsub [sample_quota; reconciled_quota] eq_refl).
Defined.

(** ** Namespace events *)




Lemma length_append (s1 s2 : string) :
  String.length (s1 ++ s2)%string = (String.length s1 + String.length s2)%nat.
Proof. induction s1 as [|a s1 IH]; simpl; [done | by rewrite IH]. Qed.

Lemma KeyFunc_Name accountQuota :
  (ObjectNamespace accountQuota = "" →
   KeyFunc accountQuota = Ok (Name accountQuota))
  ∧ (ObjectNamespace accountQuota ≠ "" →
     KeyFunc accountQuota ≠ Ok (Name accountQuota)).
Proof.
  unfold KeyFunc. split.
  - intros ->. done.
  - intros Hns. destruct (ObjectNamespace accountQuota) as [|a ns] eqn:E; [done |].
    cbn [String.length Nat.ltb Nat.leb]. intros Heq. injection Heq as Heq.
    assert (String.length (String a ns ++ "/" ++ Name accountQuota)
            = String.length (Name accountQuota)) as Hlen by (by rewrite Heq).
    rewrite !length_append in Hlen. simpl in Hlen. lia.
Qed.

(** X11. For quotas without metadata namespace, which is what cluster-scoped
    account quotas are, [enqueueNamespace] adds the keys that
    [enqueueAccountQuota], and so the full resync and replenishment, add for
    them. For a quota with a metadata namespace it adds the bare name, which
    is not the key of the quota. *)
Theorem enqueueNamespace_adds_quota_keys getAccount listByAccount namespace items :
  getAccount namespace ≠ "" →
  listByAccount (getAccount namespace) = Ok items →
  (Forall (λ item, ObjectNamespace item = "") items →
   enqueueNamespace getAccount listByAccount namespace
   = flat_map enqueueAccountQuota items)
  ∧ (∀ item, item ∈ items →
             ObjectNamespace item ≠ "" →
             QueueAdd queue (Name item)
               ∈ enqueueNamespace getAccount listByAccount namespace
             ∧ QueueAdd queue (Name item) ∉ enqueueAccountQuota item).
Proof.
  intros Hsome HL. unfold enqueueNamespace.
  rewrite (proj2 (String.eqb_neq _ _) Hsome), HL. split.
  - clear HL. induction 1 as [|item items' Hitem _ IH]; [done |].
    rewrite fmap_cons. cbn [flat_map]. rewrite IH.
    by rewrite (enqueueAccountQuota_key _ _ (proj1 (KeyFunc_Name item) Hitem)).
  - intros item Hin Hns. split.
    + apply list_elem_of_fmap. by exists item.
    + destruct (KeyFunc_Ok item) as [key Hkey].
      rewrite (enqueueAccountQuota_key _ _ Hkey).
      intros Hadd. apply list_elem_of_singleton in Hadd. injection Hadd as Hadd.
      apply (proj2 (KeyFunc_Name item) Hns). by rewrite Hkey, Hadd.
Qed.

Lemma enqueueNamespace_adds_quota_keys_witness :
  enqueueNamespace account_label sample_quotas_by_account namespace_of_a
  = flat_map enqueueAccountQuota [sample_quota; reconciled_quota].
Proof.
  destruct (enqueueNamespace_adds_quota_keys account_label sample_quotas_by_account
              namespace_of_a [sample_quota; reconciled_quota]) as [Hkeys _].
  - vm_compute. discriminate.
  - reflexivity.
  - apply Hkeys. repeat constructor.
Defined.

(** ** Reconcile by key *)

(** X12. [syncResourceQuotaFromKey] treats a quota that is not found as a
    success: it returns nil and makes no call. On another error of the read
    it returns that error and makes no call. Only when the quota is read does
    it reconcile it. *)
Theorem syncResourceQuotaFromKey_reads_first Get c key :
  (∀ err,
     Get key = Err err → IsNotFound (Some err) = true →
     syncResourceQuotaFromKey Get c key = (None, []))
  ∧ (∀ err,
       Get key = Err err → IsNotFound (Some err) = false →
       syncResourceQuotaFromKey Get c key = (Some err, []))
  ∧ (∀ accountQuota,
       Get key = Ok accountQuota →
       syncResourceQuotaFromKey Get c key = syncResourceQuota c accountQuota)
  ∧ (∀ usage,
       ClientStatusUpdate usage ∈ (syncResourceQuotaFromKey Get c key).2 →
       ∃ accountQuota,
         Get key = Ok accountQuota
         ∧ Name usage = Name accountQuota
         ∧ Spec usage = Spec accountQuota).
Proof.
  unfold syncResourceQuotaFromKey. split; [| split; [| split]].
  - intros err -> Hnf. by rewrite Hnf.
  - intros err -> Hnf. by rewrite Hnf.
  - by intros accountQuota ->.
  - intros usage. destruct (Get key) as [accountQuota|err].
    + intros Hw. exists accountQuota. split; [done |].
      by apply syncResourceQuota_written in Hw as (items & _ & _ & ->).
    + destruct (IsNotFound (Some err)); by intros ?%elem_of_nil.
Qed.

Lemma syncResourceQuotaFromKey_reads_first_witness :
  syncResourceQuotaFromKey sample_Get sample_cluster "deleted" = (None, [])
  ∧ syncResourceQuotaFromKey sample_Get sample_cluster "q"
    = syncResourceQuota sample_cluster sample_quota.
Proof.
  destruct (syncResourceQuotaFromKey_reads_first sample_Get sample_cluster "deleted")
    as (Hgone & _).
  destruct (syncResourceQuotaFromKey_reads_first sample_Get sample_cluster "q")
    as (_ & _ & Hread & _).
  split.
  - exact (Hgone (ErrNotFound "accountquotas not found") eq_refl eq_refl).
  - exact (Hread sample_quota eq_refl).
Defined.

(** ** Workers *)

(** X13. [workFunc] on an item: the handler runs between the read lock and
    its release, the item is marked done last, after the release, and once;
    in between the key is forgotten when the handler returns nil, and
    otherwise the error is reported and the key re-added with rate limiting.
    On quit the function only returns true: no handler, no lock, no done. *)
Theorem workFunc_releases_lock_and_item q key syncHandler :
  workFunc q (key, true) syncHandler = (true, [QueueGet q])
  ∧ ∃ outcome,
      workFunc q (key, false) syncHandler
      = (false,
         [QueueGet q; WorkerRLock] ++ (Handler <$> (syncHandler key).2)
           ++ outcome ++ [WorkerRUnlock; QueueDone q key])
      ∧ ((syncHandler key).1 = None → outcome = [QueueForget q key])
      ∧ (∀ err, (syncHandler key).1 = Some err →
                outcome = [Handler (HandleError err); QueueAddRateLimited q key]).
Proof.
  split; [done |]. unfold workFunc.
  destruct (syncHandler key) as [[err|] calls]; simpl.
  - exists [Handler (HandleError err); QueueAddRateLimited q key].
    split; [done |]. split; [done |]. by intros err' [= ->].
  - exists [QueueForget q key]. split; [done |]. split; [done |]. by intros err'.
Qed.

Lemma workFunc_releases_lock_and_item_witness :
  workFunc queue ("deleted", false) (syncResourceQuotaFromKey sample_Get sample_cluster)
  = (false,
     [QueueGet queue; WorkerRLock; QueueForget queue "deleted";
      WorkerRUnlock; QueueDone queue "deleted"]).
Proof.
  destruct (workFunc_releases_lock_and_item queue "deleted"
              (syncResourceQuotaFromKey sample_Get sample_cluster))
    as (_ & outcome & -> & Hnil & _).
  rewrite (Hnil eq_refl). reflexivity.
Defined.

(** X14. A worker that reconciles by key: the key of a quota that no longer
    exists is forgotten, without any call of the client's status update; the
    key of a quota is re-added with rate limiting whenever an evaluator
    failed on one of its namespaces, even though the status was written. *)
Theorem worker_forgets_deleted_and_retries_partial q Get c key :
  (∀ err,
     Get key = Err err → IsNotFound (Some err) = true →
     workFunc q (key, false) (syncResourceQuotaFromKey Get c)
     = (false,
        [QueueGet q; WorkerRLock; QueueForget q key;
         WorkerRUnlock; QueueDone q key]))
  ∧ (∀ accountQuota items,
       Get key = Ok accountQuota →
       ListNamespaces c (Account (Spec accountQuota)) = Ok items →
       evaluatorErrors c accountQuota items ≠ [] →
       let calls := (workFunc q (key, false) (syncResourceQuotaFromKey Get c)).2 in
       (QueueAddRateLimited q key ∈ calls)
       ∧ (QueueForget q key ∉ calls)
       ∧ (dirtyOf c accountQuota items = true →
          Handler (ClientStatusUpdate (usageOf c accountQuota items)) ∈ calls)).
Proof.
  split.
  - intros err HG Hnf. unfold workFunc, syncResourceQuotaFromKey.
    by rewrite HG, Hnf.
  - intros accountQuota items HG HL Herrors calls. subst calls.
    unfold workFunc, syncResourceQuotaFromKey. rewrite HG.
    rewrite (syncResourceQuota_Ok _ _ _ HL).
    assert (∀ more, ∃ err,
              NewAggregate (evaluatorErrors c accountQuota items ++ more) = Some err)
      as Hfailed.
    { intros more. destruct (evaluatorErrors c accountQuota items) as [|e l] eqn:E;
        [done |]. simpl. eauto. }
    destruct (dirtyOf c accountQuota items).
    + destruct (Hfailed (option_list (Status_Update c (usageOf c accountQuota items))))
        as [err ->].
      cbn [app fmap list_fmap rev]. split; [| split].
      * do 4 right. left.
      * intros Hin.
        repeat (apply elem_of_cons in Hin as [Hin|Hin]; [discriminate Hin |]).
        by apply elem_of_nil in Hin.
      * intros _. do 2 right. left.
    + destruct (Hfailed []) as [err Herr]. rewrite app_nil_r in Herr. rewrite Herr.
      cbn [app fmap list_fmap rev]. split; [| split].
      * do 3 right. left.
      * intros Hin.
        repeat (apply elem_of_cons in Hin as [Hin|Hin]; [discriminate Hin |]).
        by apply elem_of_nil in Hin.
      * intros Hd. discriminate Hd.
Qed.

Lemma worker_forgets_deleted_and_retries_partial_witness :
  QueueAddRateLimited queue "q"
    ∈ (workFunc queue ("q", false)
         (syncResourceQuotaFromKey sample_Get sample_cluster)).2
  ∧ Handler (ClientStatusUpdate sample_usage)
      ∈ (workFunc queue ("q", false)
           (syncResourceQuotaFromKey sample_Get sample_cluster)).2.
Proof.
  destruct (worker_forgets_deleted_and_retries_partial queue sample_Get
              sample_cluster "q") as [_ Hpartial].
  destruct (Hpartial sample_quota sample_namespaces eq_refl eq_refl)
    as (Hretry & _ & Hwritten).
  - vm_compute. discriminate.
  - split; [exact Hretry |]. apply Hwritten. vm_compute. reflexivity.
Defined.

Lemma workFunc_not_quit q key syncHandler :
  (workFunc q (key, false) syncHandler).1 = false.
Proof. unfold workFunc. by destruct (syncHandler key) as [[err|] calls]. Qed.

Lemma workerLoop_until_quit q before key syncHandler after :
  Forall (λ step, step.1.2 = false) before →
  workerLoop q (before ++ ((key, true), syncHandler) :: after)
  = ((workerLoop q before).1 ++ [QueueGet q], true).
Proof.
  induction 1 as [|[[key' quit] handler] before Hstep _ IH]; [done |].
  simpl in Hstep. subst quit. rewrite <- app_comm_cons. cbn [workerLoop].
  pose proof (workFunc_not_quit q key' handler) as Hquit.
  destruct (workFunc q (key', false) handler) as [quit calls].
  simpl in Hquit. subst quit. rewrite IH.
  destruct (workerLoop q before) as [calls' returned]. simpl.
  by rewrite app_assoc.
Qed.

(** X15. The loop of a worker returns only when its queue reports quit: as
    long as no step quits the loop has not returned; at the first quit it
    returns after the call of [Get], and the steps that follow are never
    run. *)
Theorem workerLoop_stops_at_quit q before :
  Forall (λ step, step.1.2 = false) before →
  (workerLoop q before).2 = false
  ∧ (∀ key syncHandler after,
       workerLoop q (before ++ ((key, true), syncHandler) :: after)
       = ((workerLoop q before).1 ++ [QueueGet q], true))
  ∧ length (List.filter (λ e, match e with QueueDone _ _ => true | _ => false end)
              (workerLoop q before).1)
    = length before.
Proof.
  intros Hbefore. split; [| split].
  - induction Hbefore as [|[[key quit] handler] before Hstep _ IH]; [done |].
    simpl in Hstep. subst quit. cbn [workerLoop].
    pose proof (workFunc_not_quit q key handler) as Hquit.
    destruct (workFunc q (key, false) handler) as [quit calls].
    simpl in Hquit. subst quit. by destruct (workerLoop q before).
  - intros key syncHandler after. by apply workerLoop_until_quit.
  - induction Hbefore as [|[[key quit] handler] before Hstep _ IH]; [done |].
    simpl in Hstep. subst quit. cbn [workerLoop].
    unfold workFunc.
    destruct (handler key) as [[err|] calls];
      destruct (workerLoop q before) as [calls' returned]; simpl in *;
      rewrite !List.filter_app; simpl; rewrite length_app; simpl;
      rewrite IH;
      (assert (List.filter
                 (λ e, match e with QueueDone _ _ => true | _ => false end)
                 (Handler <$> calls) = []) as ->;
       [clear; induction calls; [done | simpl; done] | simpl; lia]).
Qed.

Lemma workerLoop_stops_at_quit_witness :
  workerLoop queue
    [(("deleted", false), syncResourceQuotaFromKey sample_Get sample_cluster);
     (("", true), syncResourceQuotaFromKey sample_Get sample_cluster);
     (("q", false), syncResourceQuotaFromKey sample_Get sample_cluster)]
  = ([QueueGet queue; WorkerRLock; QueueForget queue "deleted";
      WorkerRUnlock; QueueDone queue "deleted"; QueueGet queue],
     true).
Proof.
  destruct (workerLoop_stops_at_quit queue
              [(("deleted", false), syncResourceQuotaFromKey sample_Get sample_cluster)])
    as (_ & Hquit & _).
  - repeat constructor.
  - exact (Hquit "" (syncResourceQuotaFromKey sample_Get sample_cluster)
             [(("q", false), syncResourceQuotaFromKey sample_Get sample_cluster)]).
Defined.

(** ** The sync loop *)

(** X16. Whatever discovery and the monitors answer, a tick of the sync
    loop that takes the worker lock releases it before it ends: after the
    reports of discovery errors, the calls of a tick are either none or the
    taking of the lock, calls that neither take nor release it, and its
    release. In particular the monitors are only resynced, and their caches
    only waited for, while the lock is held. *)
Theorem Sync_tick_releases_worker_lock discovered quotaMonitor oldResources :
  ∃ reported section,
    (Sync_tick discovered quotaMonitor oldResources).2 = reported ++ section
    ∧ (∀ e, e ∈ reported → ∃ err, e = HandleError err)
    ∧ (section = []
       ∨ ∃ inner,
           section = [WorkerLock] ++ inner ++ [WorkerUnlock]
           ∧ (WorkerLock ∉ inner)
           ∧ (WorkerUnlock ∉ inner)).
Proof.
  assert (∀ newResources,
            (Sync_apply quotaMonitor oldResources newResources).2 = []
            ∨ ∃ inner,
                (Sync_apply quotaMonitor oldResources newResources).2
                = [WorkerLock] ++ inner ++ [WorkerUnlock]
                ∧ (WorkerLock ∉ inner)
                ∧ (WorkerUnlock ∉ inner)) as Happly.
  { intros newResources. unfold Sync_apply, resyncMonitors.
    destruct (reflect_DeepEqual oldResources newResources); [by left |].
    right.
    assert (∀ inner : list Effect,
              Forall (λ e, e ≠ WorkerLock ∧ e ≠ WorkerUnlock) inner →
              (WorkerLock ∉ inner) ∧ (WorkerUnlock ∉ inner)) as Hfree.
    { intros inner Hall. rewrite Forall_forall in Hall.
      split; intros Hin; by destruct (Hall _ Hin). }
    destruct quotaMonitor as [qm|]; simpl.
    - destruct (SyncMonitors qm newResources); simpl.
      + exists [CallSyncMonitors newResources;
                HandleError (ErrOther "failed to sync resource monitors")].
        split; [done |]. apply Hfree. by repeat constructor.
      + destruct (WaitForNamedCacheSync qm); simpl.
        * exists [CallSyncMonitors newResources; CallWaitForNamedCacheSync].
          split; [done |]. apply Hfree. by repeat constructor.
        * exists [CallSyncMonitors newResources; CallWaitForNamedCacheSync;
                  HandleError (ErrOther "timed out waiting for quota monitor sync")].
          split; [done |]. apply Hfree. by repeat constructor.
    - exists []. split; [done |]. split; by intros ?%elem_of_nil. }
  unfold Sync_tick. destruct discovered as [newResources [err|]].
  - destruct (IsGroupDiscoveryFailedError (Some err) && _).
    + specialize (Happly (Some (gvr_entries oldResources ∪ gvr_entries newResources))).
      destruct (Sync_apply quotaMonitor oldResources _) as [remembered calls].
      exists [HandleError err], calls. split; [done |]. split; [| exact Happly].
      intros e He. apply list_elem_of_singleton in He as ->. eauto.
    + exists [HandleError err], []. split; [done |]. split; [| by left].
      intros e He. apply list_elem_of_singleton in He as ->. eauto.
  - exists [], (Sync_apply quotaMonitor oldResources newResources).2.
    split; [done |]. split; [by intros e ?%elem_of_nil | apply Happly].
Qed.

(** X17. After discovery has reported a change, the new set is remembered
    only when the monitors were resynced and their caches filled in time (or
    when there is no monitor); when the resync fails or the caches time out
    the remembered set is left as it was, so that the next tick tries again,
    and after a failed resync the caches are not waited for. *)
Theorem Sync_apply_commits_on_success quotaMonitor oldResources newResources :
  oldResources ≠ newResources →
  let outcome := Sync_apply quotaMonitor oldResources newResources in
  (quotaMonitor = None →
   outcome = (newResources, [WorkerLock; WorkerUnlock]))
  ∧ (∀ qm,
       quotaMonitor = Some qm →
       SyncMonitors qm newResources = None →
       WaitForNamedCacheSync qm = true →
       outcome
       = (newResources,
          [WorkerLock; CallSyncMonitors newResources;
           CallWaitForNamedCacheSync; WorkerUnlock]))
  ∧ (∀ qm,
       quotaMonitor = Some qm →
       SyncMonitors qm newResources ≠ None →
       outcome.1 = oldResources
       ∧ (CallSyncMonitors newResources ∈ outcome.2)
       ∧ (CallWaitForNamedCacheSync ∉ outcome.2))
  ∧ (∀ qm,
       quotaMonitor = Some qm →
       SyncMonitors qm newResources = None →
       WaitForNamedCacheSync qm = false →
       outcome.1 = oldResources
       ∧ CallSyncMonitors newResources ∈ outcome.2
       ∧ CallWaitForNamedCacheSync ∈ outcome.2).
Proof.
  intros Hchanged outcome. subst outcome. unfold Sync_apply, resyncMonitors.
  destruct (reflect_DeepEqual oldResources newResources) eqn:Heq;
    [by apply reflect_DeepEqual_true in Heq |].
  split; [| split; [| split]].
  - by intros ->.
  - intros qm -> Hsync Hwait. by rewrite Hsync, Hwait.
  - intros qm -> Hsync.
    destruct (SyncMonitors qm newResources) as [err|]; [| done]. simpl.
    split; [done |]. split; [right; left |].
    intros Hin.
    repeat (apply elem_of_cons in Hin as [Hin|Hin]; [discriminate Hin |]).
    by apply elem_of_nil in Hin.
  - intros qm -> Hsync Hwait. rewrite Hsync, Hwait. simpl.
    split; [done |]. split; [right; left | do 2 right; left].
Qed.

Lemma Sync_apply_commits_on_success_witness :
  Sync_apply (Some healthy_monitor) (Some ∅) (Some {[ pods_v1 ]})
  = (Some {[ pods_v1 ]},
     [WorkerLock; CallSyncMonitors (Some {[ pods_v1 ]});
      CallWaitForNamedCacheSync; WorkerUnlock])
  ∧ (Sync_apply (Some failing_monitor) (Some ∅) (Some {[ pods_v1 ]})).1 = Some ∅
  ∧ (Sync_apply (Some slow_monitor) (Some ∅) (Some {[ pods_v1 ]})).1 = Some ∅
  ∧ Sync_apply None (Some ∅) (Some {[ pods_v1 ]})
    = (Some {[ pods_v1 ]}, [WorkerLock; WorkerUnlock]).
Proof.
  assert ((Some ∅ : option (gset GroupVersionResource)) ≠ Some {[ pods_v1 ]})
    as Hchanged.
  { intros E. apply reflect_DeepEqual_true in E. vm_compute in E. discriminate E. }
  split; [| split; [| split]].
  - destruct (Sync_apply_commits_on_success (Some healthy_monitor) (Some ∅)
                (Some {[ pods_v1 ]}) Hchanged) as (_ & Hok & _).
    exact (Hok healthy_monitor eq_refl eq_refl eq_refl).
  - destruct (Sync_apply_commits_on_success (Some failing_monitor) (Some ∅)
                (Some {[ pods_v1 ]}) Hchanged) as (_ & _ & Hfail & _).
    destruct (Hfail failing_monitor eq_refl) as [Hold _]; [done | exact Hold].
  - destruct (Sync_apply_commits_on_success (Some slow_monitor) (Some ∅)
                (Some {[ pods_v1 ]}) Hchanged) as (_ & _ & _ & Hslow).
    destruct (Hslow slow_monitor eq_refl eq_refl eq_refl) as [Hold _]. exact Hold.
  - destruct (Sync_apply_commits_on_success None (Some ∅)
                (Some {[ pods_v1 ]}) Hchanged) as (Hnone & _).
    exact (Hnone eq_refl).
Defined.

(** ** The sync loop with the probe of the source *)

Lemma Sync_tick_probe quotaMonitor oldResources :
  Sync_tick GetQuotableResources quotaMonitor oldResources
  = Sync_apply quotaMonitor oldResources (Some {[ pods_v1 ]}).
Proof. done. Qed.

Lemma Sync_snoc ticks quotaMonitor :
  Sync (ticks ++ [quotaMonitor])
  = ((Sync_tick GetQuotableResources quotaMonitor (Sync ticks).1).1,
     (Sync ticks).2
       ++ (Sync_tick GetQuotableResources quotaMonitor (Sync ticks).1).2).
Proof.
  unfold Sync. rewrite fold_left_app. cbn [fold_left].
  destruct (fold_left _ ticks _) as [oldResources calls]. cbn [fst snd].
  by destruct (Sync_tick GetQuotableResources quotaMonitor oldResources).
Qed.

Lemma Sync_app_steady ticks more :
  (Sync ticks).1 = Some {[ pods_v1 ]} → Sync (ticks ++ more) = Sync ticks.
Proof.
  intros Hsteady. induction more as [|quotaMonitor more IH] using rev_ind.
  - by rewrite app_nil_r.
  - rewrite app_assoc, Sync_snoc, IH, Hsteady, Sync_tick_probe.
    rewrite Sync_apply_unchanged. cbn [fst snd]. rewrite app_nil_r, <- Hsteady.
    by destruct (Sync ticks).
Qed.

(** X18. With the probe of the source, which always discovers pods, the
    sync loop remembers either nothing yet or pods, whatever the monitors
    answer; it never resyncs the monitors to anything but pods; and once pods
    are remembered every later tick makes no call at all. *)
Theorem Sync_settles_on_pods ticks :
  ((Sync ticks).1 = Some ∅ ∨ (Sync ticks).1 = Some {[ pods_v1 ]})
  ∧ (∀ resources,
       CallSyncMonitors resources ∈ (Sync ticks).2 →
       resources = Some {[ pods_v1 ]})
  ∧ (∀ more,
       (Sync ticks).1 = Some {[ pods_v1 ]} →
       Sync (ticks ++ more) = Sync ticks).
Proof.
  split; [| split].
  - induction ticks as [|quotaMonitor ticks IH] using rev_ind; [by left |].
    rewrite Sync_snoc, Sync_tick_probe. cbn [fst].
    destruct (Sync_apply_outcome quotaMonitor (Sync ticks).1 (Some {[ pods_v1 ]}))
      as [_ [-> | ->]]; [exact IH | by right].
  - induction ticks as [|quotaMonitor ticks IH] using rev_ind;
      [by intros resources ?%elem_of_nil |].
    intros resources. rewrite Sync_snoc, Sync_tick_probe. cbn [snd].
    intros [Hin|Hin]%elem_of_app; [by apply IH |].
    by apply (Sync_apply_outcome quotaMonitor (Sync ticks).1 (Some {[ pods_v1 ]})).
  - intros more Hsteady. by apply Sync_app_steady.
Qed.

Lemma Sync_settles_on_pods_witness :
  Sync [Some failing_monitor; Some healthy_monitor; Some failing_monitor; None]
  = Sync [Some failing_monitor; Some healthy_monitor].
Proof.
  destruct (Sync_settles_on_pods [Some failing_monitor; Some healthy_monitor])
    as (_ & _ & Hsteady).
  apply (Hsteady [Some failing_monitor; None]). vm_compute. reflexivity.
Defined.

(** X19. As long as the monitors fail to resync to pods, or their caches do
    not fill in time, nothing is remembered and every tick resyncs them
    again: there are as many resyncs as ticks. *)
Theorem Sync_retries_until_synced ticks :
  Forall (λ tick, ∃ qm,
            tick = Some qm
            ∧ (SyncMonitors qm (Some {[ pods_v1 ]}) ≠ None
               ∨ WaitForNamedCacheSync qm = false)) ticks →
  (Sync ticks).1 = Some ∅
  ∧ length (List.filter
              (λ e, match e with CallSyncMonitors _ => true | _ => false end)
              (Sync ticks).2)
    = length ticks.
Proof.
  induction ticks as [|tick ticks IH] using rev_ind; [done |].
  intros Hall. apply Forall_app in Hall as [Hticks Htick].
  apply Forall_singleton in Htick as (qm & -> & Hfails).
  destruct (IH Hticks) as [Hold Hcount].
  rewrite Sync_snoc, Sync_tick_probe, Hold. cbn [fst snd].
  rewrite List.filter_app, !length_app, Hcount.
  unfold Sync_apply, resyncMonitors.
  destruct (reflect_DeepEqual (Some ∅) (Some {[ pods_v1 ]})) eqn:Heq.
  { apply reflect_DeepEqual_true in Heq.
    assert (({[ pods_v1 ]} : gset GroupVersionResource) = ∅) as Hempty
      by congruence.
    by apply non_empty_singleton_L in Hempty. }
  destruct (SyncMonitors qm (Some {[ pods_v1 ]})) as [err|] eqn:Hsync; [done |].
  destruct Hfails as [Hfails|Hwait]; [done |]. by rewrite Hwait.
Qed.

Lemma Sync_retries_until_synced_witness :
  (Sync [Some failing_monitor; Some slow_monitor; Some failing_monitor]).1 = Some ∅.
Proof.
  destruct (Sync_retries_until_synced
              [Some failing_monitor; Some slow_monitor; Some failing_monitor])
    as [Hold _]; [| exact Hold].
  repeat constructor.
  - exists failing_monitor. split; [done |]. by left.
  - exists slow_monitor. split; [done |]. by right.
  - exists failing_monitor. split; [done |]. by left.
Defined.

(** ** The supervisor *)

Lemma Run_workers_started (P : Effect → bool) (l : list nat) n :
  length (List.filter P [Go (worker queue); Go (worker missingUsageQueue)]) = n →
  length (List.filter P
            (flat_map (λ _ : nat, [Go (worker queue); Go (worker missingUsageQueue)]) l))
  = (n * length l)%nat.
Proof.
  intros Hn. induction l as [|i l IH]; [simpl; lia |].
  cbn [flat_map]. rewrite List.filter_app, length_app, IH, Hn. simpl. lia.
Qed.

(** X20. [Run] starts, before it waits for the stop channel, as many
    workers on the primary queue as on the priority queue, namely the number
    of workers asked for and none when that number is not positive; it
    starts the full resync ticker once, and the quota monitor when there is
    one. *)
Theorem Run_starts_workers_per_queue quotaMonitor_present workers :
  let started q :=
    length (List.filter
              (λ e, match e with
                    | Go (worker q') => bool_decide (q' = q)
                    | _ => false
                    end)
              (Run quotaMonitor_present workers)) in
  started queue = Z.to_nat workers
  ∧ started missingUsageQueue = Z.to_nat workers
  ∧ ((workers ≤ 0)%Z → ∀ q, Go (worker q) ∉ Run quotaMonitor_present workers)
  ∧ Go enqueueAll_ticker ∈ Run quotaMonitor_present workers
  ∧ (Go quotaMonitor_Run ∈ Run quotaMonitor_present workers
     ↔ quotaMonitor_present = true).
Proof.
  intros started. subst started. cbv beta. unfold Run.
  split; [| split; [| split; [| split]]].
  - rewrite !List.filter_app, !length_app.
    rewrite (Run_workers_started _ _ 1) by done. rewrite length_seq.
    destruct quotaMonitor_present; simpl; lia.
  - rewrite !List.filter_app, !length_app.
    rewrite (Run_workers_started _ _ 1) by done. rewrite length_seq.
    destruct quotaMonitor_present; simpl; lia.
  - intros Hnone q. replace (Z.to_nat workers) with 0%nat by lia.
    destruct quotaMonitor_present; simpl; intros Hin;
      repeat (apply elem_of_cons in Hin as [Hin|Hin]; [discriminate Hin |]);
      by apply elem_of_nil in Hin.
  - rewrite !elem_of_app. do 3 right. left. by left.
  - split.
    + rewrite !elem_of_app. intros [Hin|[Hin|[Hin|[Hin|[Hin|Hin]]]]].
      * apply list_elem_of_singleton in Hin. discriminate Hin.
      * by destruct quotaMonitor_present; [| apply elem_of_nil in Hin].
      * apply list_elem_of_In, in_flat_map in Hin as (i & _ & Hin).
        destruct Hin as [Hin|[Hin|[]]]; discriminate Hin.
      * apply list_elem_of_singleton in Hin. discriminate Hin.
      * apply list_elem_of_singleton in Hin. discriminate Hin.
      * simpl in Hin.
        repeat (apply elem_of_cons in Hin as [Hin|Hin]; [discriminate Hin |]).
        by apply elem_of_nil in Hin.
    + intros ->. rewrite !elem_of_app. right. left. by left.
Qed.

Lemma Run_starts_workers_per_queue_witness :
  Go (worker missingUsageQueue) ∉ Run true (-1).
Proof.
  destruct (Run_starts_workers_per_queue true (-1)) as (_ & _ & Hnone & _).
  apply Hnone. lia.
Defined.

(** ** Construction *)

(** X21. The construction of the controller fails only when one of the two
    informers cannot be obtained or when discovery fails with an error that
    is not a partial-discovery error; in these cases the monitors are not
    touched. Otherwise the monitors are synced to whatever discovery
    returned, and an error of that sync is reported but does not fail the
    construction. With the probe of the source the construction fails only
    on the informers, and the monitors are synced to pods. *)
Theorem NewAccountQuotaController_failures
    namespaceInformer accountQuotaInformer discovered qm :
  let built :=
    NewAccountQuotaController_with namespaceInformer accountQuotaInformer
      discovered qm in
  (built.1 = None
   ↔ namespaceInformer = None
     ∧ accountQuotaInformer = None
     ∧ (discovered.2 = None ∨ IsGroupDiscoveryFailedError discovered.2 = true))
  ∧ (built.1 = None → Setup (CallSyncMonitors discovered.1) ∈ built.2)
  ∧ (built.1 ≠ None → ∀ resources, Setup (CallSyncMonitors resources) ∉ built.2)
  ∧ ((NewAccountQuotaController namespaceInformer accountQuotaInformer qm).1 = None
     ↔ namespaceInformer = None ∧ accountQuotaInformer = None)
  ∧ (namespaceInformer = None → accountQuotaInformer = None →
     Setup (CallSyncMonitors (Some {[ pods_v1 ]}))
       ∈ (NewAccountQuotaController namespaceInformer accountQuotaInformer qm).2).
Proof.
  intros built. subst built.
  unfold NewAccountQuotaController, NewAccountQuotaController_with.
  destruct namespaceInformer as [e1|].
  { cbn [fst snd]. split; [| split; [| split; [| split]]].
    - split; [done | by intros (? & _)].
    - done.
    - intros _ resources Hin. apply list_elem_of_singleton in Hin. discriminate Hin.
    - split; [done | by intros (? & _)].
    - done. }
  destruct accountQuotaInformer as [e2|].
  { cbn [fst snd]. split; [| split; [| split; [| split]]].
    - split; [done | by intros (_ & ? & _)].
    - done.
    - intros _ resources Hin.
      repeat (apply elem_of_cons in Hin as [Hin|Hin]; [discriminate Hin |]).
      by apply elem_of_nil in Hin.
    - split; [done | by intros (_ & ?)].
    - done. }
  split; [| split; [| split; [| split]]].
  - destruct discovered as [resources [err|]]; cbn [fst snd].
    + destruct (IsGroupDiscoveryFailedError (Some err)) eqn:Hpartial; cbn [isnil].
      * split.
        -- intros _. split; [done |]. split; [done |]. by right.
        -- intros _. by destruct (SyncMonitors qm resources).
      * split; [done |]. by intros (_ & _ & [? | ?]).
    + cbn [IsGroupDiscoveryFailedError isnil]. split.
      * intros _. split; [done |]. split; [done |]. by left.
      * intros _. by destruct (SyncMonitors qm resources).
  - destruct discovered as [resources [err|]]; cbn [fst snd].
    + destruct (IsGroupDiscoveryFailedError (Some err)); cbn [isnil]; [| done].
      destruct (SyncMonitors qm resources); cbn [fst snd]; intros _;
        rewrite !elem_of_app; right; right; by left.
    + cbn [IsGroupDiscoveryFailedError isnil].
      destruct (SyncMonitors qm resources); cbn [fst snd]; intros _;
        rewrite !elem_of_app; right; right; by left.
  - destruct discovered as [resources [err|]]; cbn [fst snd].
    + destruct (IsGroupDiscoveryFailedError (Some err)); cbn [isnil].
      * by destruct (SyncMonitors qm resources).
      * intros _ resources' Hin.
        repeat (apply elem_of_cons in Hin as [Hin|Hin]; [discriminate Hin |]).
        by apply elem_of_nil in Hin.
    + cbn [IsGroupDiscoveryFailedError isnil].
      by destruct (SyncMonitors qm resources).
  - unfold GetQuotableResources. cbn [IsGroupDiscoveryFailedError isnil].
    by destruct (SyncMonitors qm (Some {[ pods_v1 ]})).
  - intros _ _. unfold GetQuotableResources. cbn [IsGroupDiscoveryFailedError isnil].
    destruct (SyncMonitors qm (Some {[ pods_v1 ]})); cbn [snd];
      rewrite !elem_of_app; right; right; by left.
Qed.

Lemma NewAccountQuotaController_failures_witness :
  (NewAccountQuotaController None None failing_monitor).1 = None
  ∧ Setup (CallSyncMonitors (Some {[ pods_v1 ]}))
      ∈ (NewAccountQuotaController None None failing_monitor).2
  ∧ (NewAccountQuotaController_with None None
       (None, Some (ErrOther "connection refused")) healthy_monitor).1
    = Some (ErrOther "connection refused").
Proof.
  destruct (NewAccountQuotaController_failures None None GetQuotableResources
              failing_monitor) as (_ & _ & _ & Hbuilt & Hsynced).
  split; [by apply Hbuilt |]. split; [by apply Hsynced |].
  reflexivity.
Defined.

(** ** The summary of a discovery change *)

Lemma elem_of_sets_String_List (s : gset string) x :
  x ∈ sets_String_List s ↔ x ∈ s.
Proof.
  unfold sets_String_List. rewrite merge_sort_Permutation. apply elem_of_elements.
Qed.

Lemma filter_none {A} (P : A → bool) (l : list A) :
  (∀ x, x ∈ l → P x = false) → List.filter P l = [].
Proof.
  induction l as [|x l IH]; intros Hall; [done |]. simpl.
  rewrite (Hall x) by (by left). apply IH. intros y Hy. apply Hall. by right.
Qed.

Lemma elem_of_difference_names (kept dropped : gset GroupVersionResource) x :
  x ∈ sets_String_List
        (list_to_set
           (formatGVR <$>
              List.filter (λ r, bool_decide (r ∉ dropped)) (elements kept)))
  ↔ ∃ r, (r ∈ kept) ∧ (r ∉ dropped) ∧ x = formatGVR r.
Proof.
  rewrite elem_of_sets_String_List, elem_of_list_to_set, list_elem_of_fmap.
  split.
  - intros (r & -> & Hin). apply list_elem_of_In, filter_In in Hin as [Hin Hout].
    apply list_elem_of_In, elem_of_elements in Hin.
    apply bool_decide_eq_true in Hout. by exists r.
  - intros (r & Hin & Hout & ->). exists r. split; [done |].
    apply list_elem_of_In, filter_In. split.
    + by apply list_elem_of_In, elem_of_elements.
    + by apply bool_decide_eq_true.
Qed.

(** X22. [printDiff] lists as added the resources of the new set that the
    old set lacks and as removed those of the old set that the new set lacks,
    each list without repetition and in increasing order; what is added from
    one set to another is what is removed the other way round; and for two
    sets with the same resources, a nil map counting as empty, the summary
    reports nothing. *)
Theorem printDiff_reports_changes oldResources newResources :
  (∀ x, x ∈ printDiff_added oldResources newResources
        ↔ ∃ r, (r ∈ gvr_entries newResources)
               ∧ (r ∉ gvr_entries oldResources)
               ∧ x = formatGVR r)
  ∧ (∀ x, x ∈ printDiff_removed oldResources newResources
          ↔ ∃ r, (r ∈ gvr_entries oldResources)
                 ∧ (r ∉ gvr_entries newResources)
                 ∧ x = formatGVR r)
  ∧ NoDup (printDiff_added oldResources newResources)
  ∧ NoDup (printDiff_removed oldResources newResources)
  ∧ Sorted (λ a b, String.leb a b) (printDiff_added oldResources newResources)
  ∧ Sorted (λ a b, String.leb a b) (printDiff_removed oldResources newResources)
  ∧ printDiff_added oldResources newResources
    = printDiff_removed newResources oldResources
  ∧ (gvr_entries oldResources = gvr_entries newResources →
     printDiff oldResources newResources = "added: [], removed: []").
Proof.
  assert (base.Total (λ a b : string, Is_true (String.leb a b))) as Htotal.
  { intros a b. destruct (String.leb_total a b) as [H|H]; rewrite H; [by left | by right]. }
  assert (∀ s : gset string, NoDup (sets_String_List s)) as Hnodup.
  { intros s. unfold sets_String_List. rewrite merge_sort_Permutation.
    apply NoDup_elements. }
  split; [apply elem_of_difference_names |].
  split; [apply elem_of_difference_names |].
  split; [apply Hnodup |]. split; [apply Hnodup |].
  split; [apply (Sorted_merge_sort _) |]. split; [apply (Sorted_merge_sort _) |].
  split; [done |].
  intros Hsame. unfold printDiff, printDiff_added, printDiff_removed.
  rewrite Hsame.
  rewrite (filter_none _ (elements (gvr_entries newResources))).
  - reflexivity.
  - intros r Hin. apply elem_of_elements in Hin.
    apply bool_decide_eq_false_2. intros Hout. by apply Hout.
Qed.

Lemma printDiff_reports_changes_witness :
  printDiff (Some {[ pods_v1 ]}) (Some {[ pods_v1 ]}) = "added: [], removed: []"
  ∧ printDiff None (Some ∅) = "added: [], removed: []"
  ∧ printDiff (Some {[ pods_v1 ]}) (Some {[ pods_v1; services_v1 ]})
    = "added: [/v1, Resource=services], removed: []".
Proof.
  destruct (printDiff_reports_changes (Some {[ pods_v1 ]}) (Some {[ pods_v1 ]}))
    as (_ & _ & _ & _ & _ & _ & _ & Hsame).
  destruct (printDiff_reports_changes None (Some ∅))
    as (_ & _ & _ & _ & _ & _ & _ & Hnil).
  split; [by apply Hsame |]. split; [by apply Hnil |].
  vm_compute. reflexivity.
Defined.

(** ** Edge cases of the reconcile *)

(** X23. For a quota whose account has no namespace the object to write
    has no per-namespace entry and an empty, allocated, total used list: no
    declared resource gets a quantity, not even zero. So every declared
    resource that some evaluator scores still counts as missing its usage,
    and a quota whose previous status is absent is written. *)
Theorem reconcile_without_namespaces c accountQuota :
  ListNamespaces c (Account (Spec accountQuota)) = Ok [] →
  let usage := usageOf c accountQuota [] in
  Namespaces (Status usage) = []
  ∧ Used (Total (Status usage)) = Some ∅
  ∧ (∀ registry,
       usage_missing registry usage
       ↔ ∃ name evaluator,
           (name ∈ keys (Hard (Quota (Spec accountQuota))))
           ∧ (evaluator ∈ registry)
           ∧ Scores evaluator name = true)
  ∧ (status_absent accountQuota →
     (syncResourceQuota c accountQuota).2 = [ClientStatusUpdate usage]).
Proof.
  intros HL usage. subst usage.
  split; [done |]. split; [done |]. split.
  - intros registry. unfold usage_missing, MatchingResources.
    cbn [Spec Status Total Used usageOf syncLoop fold_left totalUsed List.filter].
    split.
    + intros (name & Hname & _ & evaluator & Hev & Hscores).
      exists name, evaluator. split; [done |]. split; [done |].
      by destruct (Scores evaluator name).
    + intros (name & evaluator & Hname & Hev & Hscores).
      exists name. split; [done |]. split.
      * unfold keys. rewrite entries_Some, dom_empty_L.
        apply not_elem_of_empty.
      * exists evaluator. split; [done |]. by rewrite Hscores.
  - intros Habsent. rewrite (syncResourceQuota_Ok _ _ _ HL).
    assert (dirtyOf c accountQuota [] = true) as ->; [| done].
    apply dirtyOf_spec_dirty. right. by left.
Qed.

Lemma reconcile_without_namespaces_witness :
  Used (Total (Status (usageOf cluster_without_namespaces sample_quota [])))
  = Some ∅
  ∧ usage_missing [pods_evaluator]
      (usageOf cluster_without_namespaces sample_quota []).
Proof.
  destruct (reconcile_without_namespaces cluster_without_namespaces sample_quota
              eq_refl) as (_ & Hused & Hmissing & _).
  split; [exact Hused |]. apply Hmissing.
  exists "pods", pods_evaluator. split; [| split].
  - unfold keys. simpl. rewrite dom_singleton_L. by apply elem_of_singleton.
  - by left.
  - reflexivity.
Defined.

Lemma evaluatorErrors_read_back c accountQuota items :
  evaluatorErrors c (readBack (usageOf c accountQuota items)) items
  = evaluatorErrors c accountQuota items.
Proof.
  unfold evaluatorErrors.
  cbn [Spec Quota Hard Scopes ScopeSelector readBack usageOf].
  by rewrite hardLimits_omitempty.
Qed.

(** X24. Once a reconcile has written a status whose total hard list and
    total used list are not empty, a worker that reconciles the key again,
    the read returning the written object as it reads back, the cluster
    answering as before and no evaluator failing, makes no call of the
    client's status update and forgets the key. *)
Theorem worker_forgets_reconciled_quota q Get c accountQuota usage key :
  ClientStatusUpdate usage ∈ (syncResourceQuota c accountQuota).2 →
  Get key = Ok (readBack usage) →
  entries (StatusHard (Total (Status usage))) ≠ ∅ →
  entries (Used (Total (Status usage))) ≠ ∅ →
  (∀ items,
     ListNamespaces c (Account (Spec accountQuota)) = Ok items →
     evaluatorErrors c accountQuota items = []) →
  workFunc q (key, false) (syncResourceQuotaFromKey Get c)
  = (false,
     [QueueGet q; WorkerRLock; QueueForget q key; WorkerRUnlock; QueueDone q key]).
Proof.
  intros Hw HG Hhard Hused Hquiet.
  apply syncResourceQuota_written in Hw as (items & HL & _ & ->).
  unfold workFunc, syncResourceQuotaFromKey. rewrite HG.
  rewrite (syncResourceQuota_Ok c (readBack (usageOf c accountQuota items)) items HL).
  assert (dirtyOf c (readBack (usageOf c accountQuota items)) items = false) as ->.
  { apply not_true_is_false. intros Hd. apply dirtyOf_read_back in Hd. tauto. }
  by rewrite evaluatorErrors_read_back, (Hquiet items HL).
Qed.

Lemma worker_forgets_reconciled_quota_witness :
  workFunc queue ("q", false)
    (syncResourceQuotaFromKey
       (λ _, Ok (readBack (usageOf quiet_cluster sample_quota sample_namespaces)))
       quiet_cluster)
  = (false,
     [QueueGet queue; WorkerRLock; QueueForget queue "q";
      WorkerRUnlock; QueueDone queue "q"]).
Proof.
  apply (worker_forgets_reconciled_quota queue _ quiet_cluster sample_quota
           (usageOf quiet_cluster sample_quota sample_namespaces) "q").
  - vm_compute. left.
  - reflexivity.
  - intros E.
    assert (entries (StatusHard (Total (Status
              (usageOf quiet_cluster sample_quota sample_namespaces)))) !! "pods"
            = None) as Hk by (by rewrite E).
    vm_compute in Hk. discriminate Hk.
  - intros E.
    assert (entries (Used (Total (Status
              (usageOf quiet_cluster sample_quota sample_namespaces)))) !! "pods"
            = None) as Hk by (by rewrite E).
    vm_compute in Hk. discriminate Hk.
  - intros items Hitems. injection Hitems as <-. vm_compute. reflexivity.
Defined.

(** X25. After a write, the reconcile of the object as it reads back, the
    cluster answering as before, is dirty exactly when the total hard list or
    the total used list that was written is empty, since an empty list reads
    back nil; it then hands the same status to the status update again. *)
Theorem reconcile_of_read_back_dirty_iff c accountQuota usage :
  ClientStatusUpdate usage ∈ (syncResourceQuota c accountQuota).2 →
  ∃ items,
    ListNamespaces c (Account (Spec accountQuota)) = Ok items
    ∧ (dirtyOf c (readBack usage) items = true
       ↔ entries (StatusHard (Total (Status usage))) = ∅
         ∨ entries (Used (Total (Status usage))) = ∅)
    ∧ (dirtyOf c (readBack usage) items = true →
       ∃ again,
         (syncResourceQuota c (readBack usage)).2 = [ClientStatusUpdate again]
         ∧ Status again = Status usage)
    ∧ (dirtyOf c (readBack usage) items = false →
       (syncResourceQuota c (readBack usage)).2 = []).
Proof.
  intros Hw. apply syncResourceQuota_written in Hw as (items & HL & _ & ->).
  exists items. split; [exact HL |]. split; [apply dirtyOf_read_back |].
  rewrite (syncResourceQuota_Ok c (readBack (usageOf c accountQuota items)) items HL).
  split.
  - intros ->. eexists. split; [done |]. apply usageOf_read_back.
  - by intros ->.
Qed.

Lemma reconcile_of_read_back_dirty_iff_witness :
  (syncResourceQuota cluster_without_namespaces
     (readBack usage_without_namespaces)).2 ≠ []
  ∧ (syncResourceQuota sample_cluster (readBack sample_usage)).2 = [].
Proof.
  split.
  - destruct (reconcile_of_read_back_dirty_iff cluster_without_namespaces
                sample_quota usage_without_namespaces)
      as (items & Hitems & Hiff & Hdirty & _); [vm_compute; left |].
    destruct Hdirty as (again & -> & _); [| done].
    apply Hiff. right. reflexivity.
  - destruct (reconcile_of_read_back_dirty_iff sample_cluster sample_quota
                sample_usage sample_quota_written)
      as (items & Hitems & Hiff & _ & Hclean).
    apply Hclean. apply not_true_is_false. intros Hd. apply Hiff in Hd.
    destruct sample_usage_lists_not_empty as [Hhard Hused]. tauto.
Defined.
